(** * Tic-Tac-Toe: game-tree search engine and protocol client

    Shallow embedding of [tic_tac_toe.py], [SOA_TTT.py] and [TTT_Client.py].

    The three files share [generate_moves], [heuristic] and [check_win]
    verbatim; they are embedded once.  [minimax] exists in two variants:
    the one of [tic_tac_toe.py] (repeated verbatim in [TTT_Client.py]) and
    the one of [SOA_TTT.py]; each has its own module below.

    Modelling conventions
    - a board is a Python list of one-character strings: [list ascii];
    - Python integers are [Z]; [-inf], [inf] and the integers between them
      are [ext];
    - subscripting is Python's: negative indices count from the end and an
      index out of range raises [IndexError];
    - a computation either returns, raises, or runs out of the fuel that
      bounds the recursion of the model: [res]. *)

From Stdlib Require Import ZArith Ascii String Bool Lia DecimalString Sorted.
From stdpp Require Import base tactics option list.

Local Open Scope string_scope.
Local Open Scope Z_scope.
Local Open Scope list_scope.

(** ** Python values and control *)

Inductive exn : Type := IndexError | ValueError.

Inductive res (A : Type) : Type :=
| Ok (a : A)
| Raise (e : exn)
| OutOfFuel.

Arguments Ok {A} a.
Arguments Raise {A} e.
Arguments OutOfFuel {A}.

Global Instance res_bind : MBind res := λ A B f m,
  match m with
  | Ok a => f a
  | Raise e => Raise e
  | OutOfFuel => OutOfFuel
  end.

Global Instance res_ret : MRet res := λ A a, Ok a.

(** The two kinds of Python value that reach [==] in the engine. *)
Inductive pyval : Type :=
| PStr (s : string)
| PBool (b : bool).

(** [a == b]: a [str] never equals a [bool]. *)
Definition py_eq (a b : pyval) : bool :=
  match a, b with
  | PStr s, PStr t => String.eqb s t
  | PBool x, PBool y => Bool.eqb x y
  | _, _ => false
  end.

(** A board cell, as the Python value it is. *)
Definition cell (c : ascii) : pyval := PStr (String c EmptyString).

(** [a and b], [a or b] on booleans: [b] is only evaluated when needed. *)
Definition and_ (a b : res bool) : res bool :=
  x ← a; if x : bool then b else Ok false.

Definition or_ (a b : res bool) : res bool :=
  x ← a; if x : bool then Ok true else b.

(** Index normalisation of [l[i]]. *)
Definition py_index {A} (l : list A) (i : Z) : res nat :=
  let n := Z.of_nat (length l) in
  let j := if i <? 0 then n + i else i in
  if (j <? 0) || (n <=? j) then Raise IndexError else Ok (Z.to_nat j).

(** [l[i]] *)
Definition getitem {A} (l : list A) (i : Z) : res A :=
  j ← py_index l i;
  match l !! j with
  | Some a => Ok a
  | None => Raise IndexError
  end.

(** [l[i] = v] *)
Definition setitem {A} (l : list A) (i : Z) (v : A) : res (list A) :=
  j ← py_index l i; Ok (<[j:=v]> l).

(** [range(lo, hi)] *)
Definition py_range (lo hi : Z) : list Z := seqZ lo (hi - lo).

(** [for x in xs: acc = body(acc, x)] *)
Fixpoint for_each {A B} (xs : list B) (body : A → B → res A) (acc : A) : res A :=
  match xs with
  | [] => Ok acc
  | x :: xs' => acc' ← body acc x; for_each xs' body acc'
  end.

(** [s.count(c)] for a one-character [c]. *)
Fixpoint str_count (c : ascii) (s : string) : nat :=
  match s with
  | EmptyString => O
  | String d s' => (if Ascii.eqb c d then 1 else 0)%nat + str_count c s'
  end.

(** [s in l] for a list of strings [l]. *)
Definition str_in_list (s : string) (l : list string) : bool :=
  existsb (String.eqb s) l.

(** ** Extended integers: [-inf], the integers, [inf] *)

Inductive ext : Type := NInf | Fin (z : Z) | PInf.

Definition ext_ltb (a b : ext) : bool :=
  match a, b with
  | NInf, NInf => false
  | NInf, _ => true
  | Fin x, Fin y => x <? y
  | Fin _, PInf => true
  | _, _ => false
  end.

(** [a > b], [a >= b] *)
Definition ext_gtb (a b : ext) : bool := ext_ltb b a.
Definition ext_geb (a b : ext) : bool := negb (ext_ltb a b).

(** [max(a, b)] and [min(a, b)]: the first argument unless the second is
    strictly better. *)
Definition py_max (a b : ext) : ext := if ext_gtb b a then b else a.
Definition py_min (a b : ext) : ext := if ext_ltb b a then b else a.

(** ** The engine shared by the three files *)

Abbreviation board := (list ascii).

(** [board[i] == player] *)
Definition cell_eq (b : board) (i : Z) (player : pyval) : res bool :=
  c ← getitem b i; Ok (py_eq (cell c) player).

(** [board[i] == player and board[j] == player and board[k] == player] *)
Definition line_eq (b : board) (i j k : Z) (player : pyval) : res bool :=
  and_ (and_ (cell_eq b i player) (cell_eq b j player)) (cell_eq b k player).

Definition check_win (b : board) (player : pyval) : res bool :=
  or_ (or_ (or_ (or_ (or_ (or_ (or_
    (line_eq b 0 1 2 player)
    (line_eq b 3 4 5 player))
    (line_eq b 6 7 8 player))
    (line_eq b 0 3 6 player))
    (line_eq b 1 4 7 player))
    (line_eq b 2 5 8 player))
    (line_eq b 0 4 8 player))
    (line_eq b 6 4 2 player).

Definition generate_moves (b : board) : res (list Z) :=
  won ← or_ (check_win b (PStr "x")) (check_win b (PStr "o"));
  if won : bool then Ok []
  else
    for_each (py_range 0 9)
      (λ (next_moves : list Z) i,
         e ← cell_eq b i (PStr "e");
         Ok (if e : bool then next_moves ++ [i] else next_moves))
      [].

Definition _3row : list string := ["xxx"; "ooo"].
Definition _2row : list string := ["xxe"; "exx"; "ooe"; "eoo"].
Definition _1row : list string := ["xee"; "exe"; "eex"; "oee"; "eoe"; "eeo"].

Definition line_index : list (list Z) :=
  [[0; 1; 2]; [3; 4; 5]; [6; 7; 8];
   [2; 5; 8]; [1; 4; 7]; [0; 3; 6];
   [0; 4; 8]; [2; 4; 6]].

(** The inner loop of [heuristic]: [tst_str += board[i]] for [i] in [line]. *)
Definition tst_str_of (b : board) (line : list Z) : res string :=
  for_each line
    (λ tst_str i, c ← getitem b i; Ok (String.append tst_str (String c EmptyString)))
    EmptyString.

(** The [if]/[elif] chain of [heuristic], as the change it makes to [score]. *)
Definition line_score (tst_str : string) : Z :=
  if str_in_list tst_str _3row then
    if (1 <=? str_count "x" tst_str)%nat then 100 else -100
  else if str_in_list tst_str _2row then
    if (1 <=? str_count "x" tst_str)%nat then 10 else -10
  else if str_in_list tst_str _1row then
    if (1 <=? str_count "x" tst_str)%nat then 1 else -1
  else 0.

Definition heuristic (b : board) : res Z :=
  for_each line_index
    (λ score line, tst_str ← tst_str_of b line; Ok (score + line_score tst_str))
    0.

(** ** The search loop, shared by the two variants of [minimax]

    [for move in move_list: ...] with the board threaded through: the
    loop writes the candidate move into the board, recurses on that same
    board and writes ['e'] back.  [rec] is the recursive call. *)

Abbreviation search := (ext * Z * list ascii)%type.

Section Loop.
Variable rec : board → Z → ext → ext → bool → res search.
Variables (depth : Z) (isX : bool) (player : ascii).

Fixpoint for_moves (move_list : list Z) (b : board) (utility : ext)
    (best_move : Z) (alpha beta : ext) : res search :=
  match move_list with
  | [] => Ok (utility, best_move, b)
  | move :: rest =>
      b ← setitem b move player;
      '(test_utility, pos, b) ← rec b (depth - 1) alpha beta (negb isX);
      b ← setitem b move "e"%char;
      let pos := move in
      let '(utility, best_move, alpha, beta) :=
        if isX then
          let '(best_move, utility) :=
            if ext_gtb test_utility utility
            then (pos, test_utility) else (best_move, utility) in
          (utility, best_move, py_max utility alpha, beta)
        else
          let '(best_move, utility) :=
            if ext_ltb test_utility utility
            then (pos, test_utility) else (best_move, utility) in
          (utility, best_move, alpha, py_min utility beta) in
      if ext_geb alpha beta then Ok (utility, best_move, b)
      else for_moves rest b utility best_move alpha beta
  end.
End Loop.

(** [not move_list] *)
Definition is_nil {A} (l : list A) : bool :=
  match l with [] => true | _ => false end.

(** Number of ['e'] cells: the recursion of [minimax] is at most this deep. *)
Definition empties (b : board) : nat :=
  count_occ Ascii.ascii_dec b "e"%char.

(** ** [minimax] of [tic_tac_toe.py] and [TTT_Client.py] *)

Module TicTacToe.

(** [depth == 0 or not move_list or check_win(board, isX)] *)
Definition cutoff (b : board) (depth : Z) (move_list : list Z) (isX : bool)
    : res bool :=
  or_ (or_ (Ok (depth =? 0)) (Ok (is_nil move_list))) (check_win b (PBool isX)).

Fixpoint minimax_rec (fuel : nat) (b : board) (depth : Z) (alpha beta : ext)
    (isX : bool) : res search :=
  match fuel with
  | O => OutOfFuel
  | S fuel =>
      move_list ← generate_moves b;
      let best_move := -1 in
      let '(player, utility) :=
        if isX then ("x"%char, NInf) else ("o"%char, PInf) in
      cut ← cutoff b depth move_list isX;
      if cut : bool then h ← heuristic b; Ok (Fin h, best_move, b)
      else
        for_moves (minimax_rec fuel) depth isX player
          move_list b utility best_move alpha beta
  end.

Definition minimax (b : board) (depth : Z) (alpha beta : ext) (isX : bool)
    : res search :=
  minimax_rec (S (empties b)) b depth alpha beta isX.

End TicTacToe.

(** ** [minimax] of [SOA_TTT.py] *)

Module SOA.

(** [depth == 0 or check_win(board, isX)] *)
Definition cutoff (b : board) (depth : Z) (isX : bool) : res bool :=
  or_ (Ok (depth =? 0)) (check_win b (PBool isX)).

Fixpoint minimax_rec (fuel : nat) (b : board) (depth : Z) (alpha beta : ext)
    (isX : bool) : res search :=
  match fuel with
  | O => OutOfFuel
  | S fuel =>
      let best_move := -1 in
      let '(player, utility) :=
        if isX then ("x"%char, NInf) else ("o"%char, PInf) in
      cut ← cutoff b depth isX;
      if cut : bool then h ← heuristic b; Ok (Fin h, best_move, b)
      else
        move_list ← generate_moves b;
        for_moves (minimax_rec fuel) depth isX player
          move_list b utility best_move alpha beta
  end.

Definition minimax (b : board) (depth : Z) (alpha beta : ext) (isX : bool)
    : res search :=
  minimax_rec (S (empties b)) b depth alpha beta isX.

Definition choose_move (b : board) (depth : Z) (isX : bool) : res (Z * board) :=
  '(_, move, b) ← minimax b depth NInf PInf isX; Ok (move, b).

End SOA.

(** ** The search with pruning disabled

    The exhaustive search the specification compares [minimax] with.  It
    follows the specification's description of the search: cut off when
    [depth == 0], when the side that just moved has won, or when there is no
    legal move; otherwise try every candidate in the order of
    [generate_moves], each on a board of its own, and keep the first one
    with the strictly best utility.  There is no [alpha], no [beta] and no
    [break]. *)

Section Exhaustive.
Variable rec : board → Z → bool → res (ext * Z).
Variables (depth : Z) (isX : bool) (player : ascii) (b : board).

Fixpoint exhaustive_moves (move_list : list Z) (utility : ext)
    (best_move : Z) : res (ext * Z) :=
  match move_list with
  | [] => Ok (utility, best_move)
  | move :: rest =>
      child ← setitem b move player;
      '(test_utility, _) ← rec child (depth - 1) (negb isX);
      let better :=
        if isX then ext_gtb test_utility utility
        else ext_ltb test_utility utility in
      if better : bool then exhaustive_moves rest test_utility move
      else exhaustive_moves rest utility best_move
  end.
End Exhaustive.

Fixpoint exhaustive_rec (fuel : nat) (b : board) (depth : Z) (isX : bool)
    : res (ext * Z) :=
  match fuel with
  | O => OutOfFuel
  | S fuel =>
      move_list ← generate_moves b;
      just_moved_won ← check_win b (cell (if isX then "o"%char else "x"%char));
      if (depth =? 0) || just_moved_won || is_nil move_list
      then h ← heuristic b; Ok (Fin h, -1)
      else
        exhaustive_moves (exhaustive_rec fuel) depth isX
          (if isX then "x"%char else "o"%char) b move_list
          (if isX then NInf else PInf) (-1)
  end.

Definition exhaustive (b : board) (depth : Z) (isX : bool) : res (ext * Z) :=
  exhaustive_rec (S (empties b)) b depth isX.

(** ** The protocol client of [TTT_Client.py]

    The loop of [main], one iteration at a time.  The socket is a script:
    the data the coming [s.recv(64)] calls deliver, [None] for a call that
    times out; once the script is used up every call times out.  What is
    printed is left out; what is sent is recorded. *)

Module Client.

(** [len(s)] *)
Definition py_len (s : string) : Z := Z.of_nat (String.length s).

(** [needle in hay], on strings *)
Fixpoint str_contains (needle hay : string) : bool :=
  if String.prefix needle hay then true
  else match hay with
       | EmptyString => false
       | String _ hay' => str_contains needle hay'
       end.

(** [s.lower()], on ASCII text *)
Definition lower_char (c : ascii) : ascii :=
  let n := nat_of_ascii c in
  if ((65 <=? n) && (n <=? 90))%nat then ascii_of_nat (n + 32) else c.

Definition str_lower (s : string) : string :=
  string_of_list_ascii (map lower_char (list_ascii_of_string s)).

(** [s.split(sep)] for a one-character [sep] *)
Fixpoint str_split (sep : ascii) (s : string) : list string :=
  match s with
  | EmptyString => [EmptyString]
  | String c s' =>
      if Ascii.eqb c sep then EmptyString :: str_split sep s'
      else match str_split sep s' with
           | w :: ws => String c w :: ws
           | [] => [String c EmptyString]
           end
  end.

(** [int(c)] for a one-character string [c] of ASCII text: the ten digits
    are the only characters of ASCII that [int] accepts on their own.
    Beyond ASCII Python takes the decimal digits of other scripts as well,
    which a character of eight bits cannot hold. *)
Definition py_int (c : ascii) : res Z :=
  let n := nat_of_ascii c in
  if ((48 <=? n) && (n <=? 57))%nat then Ok (Z.of_nat n - 48)
  else Raise ValueError.

(** [str(n)] *)
Definition py_str (n : Z) : string := NilZero.string_of_int (Z.to_int n).

Definition newline : ascii := "010"%char.

Record state : Type := {
  message : option string;
  message_stack : list string;
  message_line : option string;
  cont_counter : Z;
  board : list ascii;
  end_ : bool;
  sent : list string;
  socket : list (option string)
}.

(** The branches of the state check, by the names the source gives them. *)
Inductive branch : Type :=
| Board9CHR | ClientMove | SvrMove | Winner | Final | ERROR | CLIENT_ERROR.

(** The conditions of the [if]/[elif] chain, first match first. *)
Definition classify (message_line : string) : branch :=
  if (py_len message_line =? 9) && negb (str_contains "Tie" message_line)
  then Board9CHR
  else if str_contains "Client" message_line then ClientMove
  else if str_contains "Server" message_line then SvrMove
  else if str_contains "Win" message_line || str_contains "Tie" message_line
  then Winner
  else if str_contains "Disconnecting" message_line then Final
  else if str_contains "Error" message_line then ERROR
  else CLIENT_ERROR.

(** One iteration of [while (not end)] ends in one of three ways. *)
Inductive outcome : Type :=
| Skipped (st : state)               (* [continue]: no line was examined *)
| Handled (br : branch) (st : state) (* a line went through the state check *)
| Exited (br : branch) (st : state). (* [s.close(); exit()] *)

Section Session.
Variables (player opp : ascii) (isX : bool).

(** [board = list(message_line.lower())] and the loop that blanks the
    digits. *)
Definition snapshot (message_line : string) : res (list ascii) :=
  for_each (py_range 0 9)
    (λ (b : list ascii) i,
       c ← getitem b i;
       if str_contains (String c EmptyString) "123456789"
       then setitem b i "e"%char else Ok b)
    (list_ascii_of_string (str_lower message_line)).

(** The move of the [ClientMove] branch. *)
Definition client_move (b : list ascii) : res (Z * list ascii) :=
  if str_contains (string_of_list_ascii b) "eeeeeeeee" then Ok (4, b)
  else '(_, move, b) ← TicTacToe.minimax b 100 NInf PInf isX; Ok (move, b).

Definition set_board (st : state) (b : list ascii) : state :=
  {| message := message st; message_stack := message_stack st;
     message_line := message_line st; cont_counter := cont_counter st;
     board := b; end_ := end_ st; sent := sent st; socket := socket st |}.

Definition send (st : state) (data : string) : state :=
  {| message := message st; message_stack := message_stack st;
     message_line := message_line st; cont_counter := cont_counter st;
     board := board st; end_ := end_ st; sent := sent st ++ [data];
     socket := socket st |}.

Definition set_end (st : state) : state :=
  {| message := message st; message_stack := message_stack st;
     message_line := message_line st; cont_counter := cont_counter st;
     board := board st; end_ := true; sent := sent st; socket := socket st |}.

Definition set_message_line (st : state) (l : option string) : state :=
  {| message := message st; message_stack := message_stack st;
     message_line := l; cont_counter := cont_counter st;
     board := board st; end_ := end_ st; sent := sent st; socket := socket st |}.

(** The state check on [line], up to and including
    [message_line = None]. *)
Definition state_check (st : state) (line : string) : res outcome :=
  match classify line with
  | Board9CHR =>
      b ← snapshot line;
      Ok (Handled Board9CHR (set_message_line (set_board st b) None))
  | ClientMove =>
      '(move, b) ← client_move (board st);
      b ← setitem b move player;
      Ok (Handled ClientMove
            (set_message_line (send (set_board st b) (py_str (move + 1))) None))
  | SvrMove =>
      c ← getitem (list_ascii_of_string line) (-1);
      pos ← py_int c;
      b ← setitem (board st) (pos - 1) opp;
      Ok (Handled SvrMove (set_message_line (set_board st b) None))
  | Winner => Ok (Handled Winner (set_message_line st None))
  | Final => Ok (Handled Final (set_message_line (set_end st) None))
  | ERROR => Ok (Exited ERROR st)
  | CLIENT_ERROR => Ok (Exited CLIENT_ERROR st)
  end.

(** [s.recv(64)] under [if (not message_stack)], a timeout leaving
    [message] as it was. *)
Definition receive (st : state) : state :=
  if is_nil (message_stack st) then
    match socket st with
    | Some data :: rest =>
        {| message := Some data; message_stack := message_stack st;
           message_line := message_line st; cont_counter := cont_counter st;
           board := board st; end_ := end_ st; sent := sent st;
           socket := rest |}
    | None :: rest =>
        {| message := message st; message_stack := message_stack st;
           message_line := message_line st; cont_counter := cont_counter st;
           board := board st; end_ := end_ st; sent := sent st;
           socket := rest |}
    | [] => st
    end
  else st.

(** [message_stack.extend(message.split('\n'))] when [message] is not
    [None], then [message = None]. *)
Definition extend (st : state) : state :=
  {| message := None;
     message_stack :=
       match message st with
       | Some m => message_stack st ++ str_split newline m
       | None => message_stack st
       end;
     message_line := message_line st; cont_counter := cont_counter st;
     board := board st; end_ := end_ st; sent := sent st;
     socket := socket st |}.

(** [message_line = message_stack.pop(0)], again while it is [''].
    [inl]: the line popped and the stack left; [inr]: [IndexError], with
    the value [message_line] has by then. *)
Fixpoint pop_line (stack : list string) (message_line : option string)
    : (string * list string) + option string :=
  match stack with
  | [] => inr message_line
  | line :: stack' =>
      if String.eqb line EmptyString then pop_line stack' (Some line)
      else inl (line, stack')
  end.

Definition iteration (st : state) : res outcome :=
  let st := extend (receive st) in
  match pop_line (message_stack st) (message_line st) with
  | inl (line, stack') =>
      state_check
        {| message := message st; message_stack := stack';
           message_line := Some line; cont_counter := cont_counter st;
           board := board st; end_ := end_ st; sent := sent st;
           socket := socket st |}
        line
  | inr message_line =>
      let message_line :=
        if 4 <? cont_counter st
        then Some "No longer receiving messages" else message_line in
      Ok (Skipped
            {| message := message st; message_stack := [];
               message_line := message_line;
               cont_counter := cont_counter st + 1;
               board := board st; end_ := end_ st; sent := sent st;
               socket := socket st |})
  end.

(** How the loop stands after some iterations. *)
Inductive status : Type :=
| Running (st : state)   (* about to test [not end] again *)
| Closed (st : state)    (* [end] was set: the loop is left, [s.close()] *)
| Exit (st : state)      (* [exit()] inside the loop *)
| Uncaught (e : exn).

(** At most [n] iterations of the loop: the outcome of each iteration
    run, oldest first, as [None] for a skipped iteration and the branch
    taken otherwise. *)
Fixpoint main_loop (n : nat) (st : state) : list (option branch) * status :=
  match n with
  | O => ([], Running st)
  | S n =>
      if end_ st then ([], Closed st)
      else
        match iteration st with
        | Ok (Skipped st) =>
            let '(tr, s) := main_loop n st in (None :: tr, s)
        | Ok (Handled br st) =>
            let '(tr, s) := main_loop n st in (Some br :: tr, s)
        | Ok (Exited br st) => ([Some br], Exit st)
        | Raise e => ([], Uncaught e)
        | OutOfFuel => ([], Running st) (* the search has not returned *)
        end
  end.

(** The state in which [main] enters the loop. *)
Definition initial (script : list (option string)) : state :=
  {| message := Some " "; message_stack := []; message_line := None;
     cont_counter := 0;
     board := ["e"; "e"; "e"; "e"; "e"; "e"; "e"; "e"; "e"]%char;
     end_ := false; sent := []; socket := script |}.
End Session.

End Client.

(** ** The game loop of [tic_tac_toe.py]

    [main] without what it prints.  An answer to [input("Player move")] is
    given as what [int(move)] makes of it: [Some n], or [None] when it
    raises [ValueError]. *)

Module Game.

(** How [main] can end, or where it waits. *)
Inductive ending : Type :=
| YouWon | YouFailed | YouTied   (* the three final messages *)
| InvalidInput                   (* ["invalid input"], [exit()] *)
| NoSide                         (* the [else: exit()] after the X/O prompt *)
| Waiting.                       (* [input()] has nothing more to read *)

(** The locals [main] sets once the side is chosen. *)
Record session : Type := {
  player : ascii;
  opp : ascii;
  isX : bool
}.

(** [while (player not in 'xXoO'): player = input("X/O? ") ...;
    player = player.lower()] and the [if]/[elif]/[else] after it: the
    session and the first board, or how the program ends. *)
Fixpoint choose_side (answers : list string) : (session * list ascii) + ending :=
  match answers with
  | [] => inr Waiting
  | answer :: rest =>
      let player := Client.str_lower answer in
      if negb (Client.str_contains player "xXoO") then choose_side rest
      else if String.eqb player "x" then
        inl ({| player := "x"; opp := "o"; isX := false |},
             ["e"; "e"; "e"; "e"; "e"; "e"; "e"; "e"; "e"]%char)
      else if String.eqb player "o" then
        inl ({| player := "o"; opp := "x"; isX := true |},
             ["e"; "e"; "e"; "e"; "x"; "e"; "e"; "e"; "e"]%char)
      else inr NoSide
  end.

Section Loop.
Variable s : session.

(** ['e' in ''.join(board)] *)
Definition has_empty (b : list ascii) : bool :=
  Client.str_contains "e" (string_of_list_ascii b).

(** The condition of the [while]. *)
Definition goes_on (b : list ascii) : res bool :=
  and_ (and_ (w ← check_win b (cell (player s)); Ok (negb w))
             (w ← check_win b (cell (opp s)); Ok (negb w)))
       (Ok (has_empty b)).

(** The body of the [while] for the answer [n]: the board after the
    player's move and the reply, or [None] for an invalid move. *)
Definition turn (b : list ascii) (n : Z) : res (option (list ascii)) :=
  let move := n - 1 in
  valid ← and_ (cell_eq b move (PStr "e")) (Ok ((0 <=? move) && (move <? 9)));
  if valid : bool then
    b ← setitem b move (player s);
    if has_empty b then
      '(_, move, b) ← TicTacToe.minimax b 100 NInf PInf (isX s);
      b ← setitem b move (opp s);
      Ok (Some b)
    else Ok (Some b)
  else Ok None.

(** The three-way test after the loop. *)
Definition verdict (b : list ascii) : res ending :=
  won ← check_win b (cell (player s));
  if won : bool then Ok YouWon
  else
    lost ← check_win b (cell (opp s));
    if lost : bool then Ok YouFailed else Ok YouTied.

Fixpoint game_loop (answers : list (option Z)) (b : list ascii)
    : res (ending * list ascii) :=
  on ← goes_on b;
  if on : bool then
    match answers with
    | [] => Ok (Waiting, b)
    | None :: _ => Ok (InvalidInput, b)
    | Some n :: rest =>
        r ← turn b n;
        match r with
        | Some b' => game_loop rest b'
        | None => game_loop rest b
        end
    end
  else v ← verdict b; Ok (v, b).
End Loop.

(** [main]: the answers to the X/O prompt, then the answers to the move
    prompt. *)
Definition main (sides : list string) (answers : list (option Z))
    : res (ending * list ascii) :=
  match choose_side sides with
  | inl (s, b) => game_loop s answers b
  | inr e => Ok (e, [])
  end.

End Game.

(** ** Specification-level notions *)

(** A board as the sources document it: a list of length 9. *)
Definition wf (b : board) : Prop := length b = 9%nat.

(** Cell [i] of [b] holds the character [p]. *)
Definition is_at (b : board) (i : Z) (p : ascii) : bool :=
  match b !! Z.to_nat i with
  | Some c => Ascii.eqb c p
  | None => false
  end.

(** Some line of [line_index] is fully occupied by [p]. *)
Definition wins (b : board) (p : ascii) : bool :=
  existsb (λ line, forallb (λ i, is_at b i p) line) line_index.

(** The board with every ['x'] replaced by ['o'] and every ['o'] by ['x']. *)
Definition swap_mark (c : ascii) : ascii :=
  if Ascii.eqb c "x" then "o"%char
  else if Ascii.eqb c "o" then "x"%char
  else c.

Definition swap_marks (b : board) : board := map swap_mark b.

(** A board over the three cell values of the game. *)
Definition game_cell (c : ascii) : Prop :=
  c = "x"%char ∨ c = "o"%char ∨ c = "e"%char.

(** The cells [generate_moves] is to return on a board nobody has won. *)
Definition empty_cells (b : board) : list Z :=
  filter (λ i, is_at b i "e" = true) (py_range 0 9).

(** What [tst_str] is for a line with cells [a], [b], [c]. *)
Definition line3 (a b c : ascii) : string := String a (String b (String c EmptyString)).

Definition is_fin (a : ext) : Prop := ∃ z, a = Fin z.

(** The mark [minimax] places for [isX], and the utility it starts from. *)
Definition mark (isX : bool) : ascii := if isX then "x"%char else "o"%char.
Definition worst (isX : bool) : ext := if isX then NInf else PInf.

(** Whether [test_utility] replaces [utility] in the loop of [minimax]. *)
Definition improves (isX : bool) (test_utility utility : ext) : bool :=
  if isX then ext_gtb test_utility utility else ext_ltb test_utility utility.

(** *** Pruned against exhaustive search

    [rel α β t v m tm]: the pruned search with window [(α, β)] returned
    utility [v] and move [m] where the exhaustive search returns [t] and
    [tm].  Inside the window the two agree; outside, the pruned utility is
    on the same side of the window as the exhaustive one. *)

Definition rel (α β t v : ext) (m tm : Z) : Prop :=
  (ext_ltb α t = false → ext_ltb α v = false) ∧
  (ext_ltb t β = false → ext_ltb v β = false) ∧
  (ext_ltb α t = true → ext_ltb t β = true → v = t ∧ m = tm).

(** The order as the player to move sees it, and the two ends of the
    window: [lo] is the bound the player raises, [hi] the bound at which the
    loop breaks. *)
Definition lt_for (x : bool) (p q : ext) : bool :=
  if x then ext_ltb p q else ext_ltb q p.
Definition lo (x : bool) (α β : ext) : ext := if x then α else β.
Definition hi (x : bool) (α β : ext) : ext := if x then β else α.

(** Loop invariant relating the pruned loop (utility [u], best move [bm],
    moving bound [a]) with the exhaustive loop (utility [T], best move
    [tbm]) over the same prefix of the move list. *)
Definition loop_inv (x : bool) (α β u : ext) (bm : Z) (a T : ext) (tbm : Z)
    : Prop :=
  lt_for x a (hi x α β) = true ∧
  a = (if lt_for x (lo x α β) u then u else lo x α β) ∧
  (lt_for x (lo x α β) T = false → lt_for x (lo x α β) u = false) ∧
  (lt_for x (lo x α β) T = true → u = T ∧ bm = tbm) ∧
  lt_for x T (hi x α β) = true.

(** *** Boards and inputs of the examples *)

(** A full board nobody has won. *)
Definition drawn_board : board :=
  ["x"; "o"; "x";
   "x"; "o"; "o";
   "o"; "x"; "x"]%char.

(** ['x'] has the top row. *)
Definition x_won_board : board :=
  ["x"; "x"; "x";
   "o"; "o"; "e";
   "e"; "e"; "e"]%char.

(** Two empty cells, nobody has won, ['x'] to move. *)
Definition two_left_board : board :=
  ["x"; "o"; "x";
   "x"; "o"; "o";
   "o"; "e"; "e"]%char.

(** How many of the cells [a], [b], [c] hold [p]. *)
Definition count_char (p a b c : ascii) : Z :=
  (if Ascii.eqb a p then 1 else 0) + (if Ascii.eqb b p then 1 else 0)
  + (if Ascii.eqb c p then 1 else 0).

(** The contribution the specification gives a line with cells [a], [b],
    [c]: by how many cells carry each mark and how many are empty. *)
Definition spec_line_score (a b c : ascii) : Z :=
  match count_char "x" a b c, count_char "o" a b c, count_char "e" a b c with
  | 3, 0, 0 => 100
  | 0, 3, 0 => -100
  | 2, 0, 1 => 10
  | 0, 2, 1 => -10
  | 1, 0, 2 => 1
  | 0, 1, 2 => -1
  | _, _, _ => 0
  end.

(** Two ['x'] around an empty cell in the top row. *)
Definition split_pair_board : board :=
  ["x"; "e"; "x";
   "e"; "e"; "e";
   "e"; "e"; "e"]%char.

(** Every cell of some line of [line_index] holds [p]. *)
Definition full_line (b : board) (p : ascii) : Prop :=
  ∃ line, line ∈ line_index ∧ ∀ i, i ∈ line → b !! Z.to_nat i = Some p.

(** What the socket delivers: one board line, then nothing. *)
Definition board_then_silence : list (option string) :=
  [Some (String.append "123456789" (String Client.newline EmptyString))].

(** *** The game loop explored

    [reachable s b0 b]: the loop of [main], entered with the board [b0], can
    stand at its top with the board [b]. *)

Inductive reachable (s : Game.session) (b0 : board) : board → Prop :=
| reach_start : reachable s b0 b0
| reach_turn (b : board) (n : Z) (b' : board) :
    reachable s b0 b →
    Game.goes_on s b = Ok true →
    Game.turn s b n = Ok (Some b') →
    reachable s b0 b'.

(** The two sessions [choose_side] can return, with their first boards. *)
Definition plays_x : Game.session :=
  {| Game.player := "x"; Game.opp := "o"; Game.isX := false |}.
Definition plays_o : Game.session :=
  {| Game.player := "o"; Game.opp := "x"; Game.isX := true |}.
Definition empty_board : board :=
  ["e"; "e"; "e"; "e"; "e"; "e"; "e"; "e"; "e"]%char.
Definition centre_board : board :=
  ["e"; "e"; "e"; "e"; "x"; "e"; "e"; "e"; "e"]%char.

(** Cell [i] is the same in [b] and [b']. *)
Definition same_cell (b b' : board) (i : Z) : bool :=
  match b !! Z.to_nat i, b' !! Z.to_nat i with
  | Some c, Some c' => Ascii.eqb c c'
  | _, _ => false
  end.

(** What a turn on the answer [n] is checked for: nine cells; no full line
    of the player; the player's mark in cell [n - 1], which was empty; every
    other cell as it was, or empty before and now the opponent's; and two
    empty cells fewer, or none left. *)
Definition turn_ok (s : Game.session) (b : board) (n : Z) (b' : board) : bool :=
  (length b' =? 9)%nat &&
  negb (wins b' (Game.player s)) &&
  is_at b (n - 1) "e" && is_at b' (n - 1) (Game.player s) &&
  forallb (λ i, (i =? n - 1) || same_cell b b' i
                || (is_at b i "e" && is_at b' i (Game.opp s)))
          (py_range 0 9) &&
  ((S (S (empties b')) =? empties b)%nat || (empties b' =? 0)%nat).

(** Every turn of every game from [b] in which the player makes at most
    [k] valid moves passes [turn_ok]; a game that needs more moves makes the
    check fail. *)
Fixpoint explore (s : Game.session) (k : nat) (b : board) : bool :=
  match Game.goes_on s b with
  | Ok true =>
      match k with
      | O => false
      | S k =>
          forallb
            (λ n, match Game.turn s b n with
                  | Ok (Some b') => turn_ok s b n b' && explore s k b'
                  | _ => true
                  end)
            (py_range 1 10)
      end
  | _ => true
  end.

(** *** Mirror image of the utilities *)

Definition neg (a : ext) : ext :=
  match a with
  | NInf => PInf
  | Fin z => Fin (- z)
  | PInf => NInf
  end.

(** *** Notions of the further properties *)

(** The cells [a], [b], [c] of a line all hold [p]. *)
Definition all3 (a b c p : ascii) : bool :=
  Ascii.eqb a p && (Ascii.eqb b p && (Ascii.eqb c p && true)).

(** A depth that no descent from [b] brings to 0. *)
Definition beyond (d : Z) (b : board) : Prop :=
  d < 0 ∨ Z.of_nat (empties b) < d.

(** What the snapshot makes of a character. *)
Definition snapshot_cell (c : ascii) : ascii :=
  if Client.str_contains (String (Client.lower_char c) EmptyString) "123456789"
  then "e"%char else Client.lower_char c.

(** What the loop of the snapshot makes of a cell. *)
Definition blank_digit (c : ascii) : ascii :=
  if Client.str_contains (String c EmptyString) "123456789"
  then "e"%char else c.

(** The body of the loop of the snapshot. *)
Definition blank_body (b : list ascii) (i : Z) : res (list ascii) :=
  c ← getitem b i;
  if Client.str_contains (String c EmptyString) "123456789"
  then setitem b i "e"%char else Ok b.

(** The character of the decimal digit [k]. *)
Definition digit_char (k : Z) : ascii := ascii_of_nat (Z.to_nat (48 + k)).

(** ** Basic facts about the Python layer *)

Lemma bind_Ok {A B} (a : A) (f : A → res B) : (Ok a ≫= f) = f a.
Proof. reflexivity. Qed.

Lemma and_Ok (x y : bool) : and_ (Ok x) (Ok y) = Ok (x && y).
Proof. by destruct x. Qed.

Lemma or_Ok (x y : bool) : or_ (Ok x) (Ok y) = Ok (x || y).
Proof. by destruct x. Qed.

Lemma py_index_ok {A} (l : list A) (i : Z) :
  0 ≤ i < Z.of_nat (length l) → py_index l i = Ok (Z.to_nat i).
Proof.
  intros [Hlo Hhi]. unfold py_index.
  destruct (Z.ltb_spec i 0) as [?|_]; [lia|].
  destruct (Z.ltb_spec i 0) as [?|_]; [lia|].
  destruct (Z.leb_spec (Z.of_nat (length l)) i) as [?|_]; [lia|done].
Qed.

Lemma getitem_ok {A} (l : list A) (i : Z) (a : A) :
  0 ≤ i → l !! Z.to_nat i = Some a → getitem l i = Ok a.
Proof.
  intros Hi Hl. unfold getitem. rewrite py_index_ok.
  - cbn. by rewrite Hl.
  - apply lookup_lt_Some in Hl. lia.
Qed.

Lemma setitem_ok {A} (l : list A) (i : Z) (v : A) :
  0 ≤ i < Z.of_nat (length l) → setitem l i v = Ok (<[Z.to_nat i:=v]> l).
Proof. intros Hi. unfold setitem. by rewrite py_index_ok. Qed.

Lemma wf_cells (b : board) :
  wf b → ∃ c0 c1 c2 c3 c4 c5 c6 c7 c8, b = [c0; c1; c2; c3; c4; c5; c6; c7; c8].
Proof.
  unfold wf. intros Hlen.
  do 9 (destruct b as [|? b]; [discriminate Hlen|]).
  destruct b; [|discriminate Hlen]. by repeat eexists.
Qed.

Lemma wf_insert (b : board) (i : nat) (c : ascii) : wf b → wf (<[i:=c]> b).
Proof. unfold wf. by rewrite length_insert. Qed.

Lemma cell_eq_is_at (b : board) (i : Z) (p : ascii) :
  0 ≤ i < Z.of_nat (length b) → cell_eq b i (cell p) = Ok (is_at b i p).
Proof.
  intros Hi. unfold cell_eq, is_at.
  destruct (lookup_lt_is_Some_2 b (Z.to_nat i)) as [c Hc]; [lia|].
  rewrite (getitem_ok _ _ c), Hc by (done || lia). cbn.
  by destruct (Ascii.eqb c p).
Qed.

(** ** [check_win] *)

Ltac cells b H :=
  let c0 := fresh "c0" in let c1 := fresh "c1" in let c2 := fresh "c2" in
  let c3 := fresh "c3" in let c4 := fresh "c4" in let c5 := fresh "c5" in
  let c6 := fresh "c6" in let c7 := fresh "c7" in let c8 := fresh "c8" in
  destruct (wf_cells b H) as (c0 & c1 & c2 & c3 & c4 & c5 & c6 & c7 & c8 & ->).

Lemma check_win_wins (b : board) (p : ascii) :
  wf b → check_win b (cell p) = Ok (wins b p).
Proof.
  intros Hb. unfold check_win, line_eq.
  assert (Hlen : Z.of_nat (length b) = 9) by (rewrite Hb; done).
  rewrite !cell_eq_is_at by lia. rewrite !and_Ok, !or_Ok. f_equal.
  unfold wins. cbn [existsb forallb line_index].
  generalize (is_at b 0 p), (is_at b 1 p), (is_at b 2 p), (is_at b 3 p),
    (is_at b 4 p), (is_at b 5 p), (is_at b 6 p), (is_at b 7 p), (is_at b 8 p).
  intros [] [] [] [] [] [] [] [] []; reflexivity.
Qed.

Lemma check_win_bool (b : board) (isX : bool) :
  wf b → check_win b (PBool isX) = Ok false.
Proof. intros Hb. cells b Hb. reflexivity. Qed.

Lemma wins_spec (b : board) (p : ascii) :
  wins b p = true ↔
  ∃ line, line ∈ line_index ∧ ∀ i, i ∈ line → is_at b i p = true.
Proof.
  unfold wins. rewrite existsb_exists. split.
  - intros (line & Hin & Hall). exists line. split; [by apply list_elem_of_In|].
    intros i Hi. rewrite forallb_forall in Hall. by apply Hall, list_elem_of_In.
  - intros (line & Hin & Hall). exists line. split; [by apply list_elem_of_In|].
    apply forallb_forall. intros i Hi. by apply Hall, list_elem_of_In.
Qed.

(** ** [generate_moves] *)

Lemma generate_loop (b : board) (idxs acc : list Z) :
  Forall (λ i, 0 ≤ i < Z.of_nat (length b)) idxs →
  for_each idxs
    (λ (next_moves : list Z) i,
       e ← cell_eq b i (PStr "e");
       Ok (if e : bool then next_moves ++ [i] else next_moves)) acc
  = Ok (acc ++ filter (λ i, is_at b i "e" = true) idxs).
Proof.
  intros Hall. revert acc. induction Hall as [|i idxs Hi _ IH]; intros acc.
  - cbn. by rewrite app_nil_r.
  - cbn [for_each]. change (PStr "e") with (cell "e").
    rewrite cell_eq_is_at by done. rewrite bind_Ok, bind_Ok, IH.
    rewrite filter_cons. destruct (is_at b i "e") eqn:He.
    + rewrite decide_True by done. by rewrite <- app_assoc.
    + rewrite decide_False by done. done.
Qed.

Lemma generate_moves_eq (b : board) :
  wf b →
  generate_moves b =
    Ok (if wins b "x" || wins b "o" then [] else empty_cells b).
Proof.
  intros Hb. unfold generate_moves.
  change (PStr "x") with (cell "x"). change (PStr "o") with (cell "o").
  rewrite !check_win_wins, or_Ok, bind_Ok by done.
  destruct (wins b "x" || wins b "o"); [done|].
  rewrite generate_loop; [done|].
  rewrite Hb. repeat constructor; lia.
Qed.

Lemma elem_of_empty_cells (b : board) (i : Z) :
  i ∈ empty_cells b ↔ 0 ≤ i < 9 ∧ is_at b i "e" = true.
Proof.
  unfold empty_cells, py_range. rewrite list_elem_of_filter, elem_of_seqZ.
  intuition lia.
Qed.

Lemma generate_moves_elem (b : board) (ms : list Z) (m : Z) :
  wf b → generate_moves b = Ok ms → m ∈ ms →
  0 ≤ m < 9 ∧ b !! Z.to_nat m = Some "e"%char.
Proof.
  intros Hb Hg Hm. rewrite generate_moves_eq in Hg by done.
  injection Hg as <-. destruct (wins b "x" || wins b "o").
  - by apply elem_of_nil in Hm.
  - apply elem_of_empty_cells in Hm as [? He]. split; [done|].
    unfold is_at in He. destruct (b !! Z.to_nat m) as [c|]; [|done].
    by apply Ascii.eqb_eq in He as ->.
Qed.

(** ** [heuristic] *)

Lemma heuristic_cells (c0 c1 c2 c3 c4 c5 c6 c7 c8 : ascii) :
  heuristic [c0; c1; c2; c3; c4; c5; c6; c7; c8] =
  Ok (line_score (line3 c0 c1 c2) + line_score (line3 c3 c4 c5)
      + line_score (line3 c6 c7 c8) + line_score (line3 c2 c5 c8)
      + line_score (line3 c1 c4 c7) + line_score (line3 c0 c3 c6)
      + line_score (line3 c0 c4 c8) + line_score (line3 c2 c4 c6)).
Proof. reflexivity. Qed.

Lemma heuristic_total (b : board) : wf b → ∃ h, heuristic b = Ok h.
Proof. intros Hb. cells b Hb. rewrite heuristic_cells. by eexists. Qed.

(** ** Fuel: a move fills one of the empty cells *)

Lemma empties_insert (b : board) (i : nat) (p : ascii) :
  b !! i = Some "e"%char → p ≠ "e"%char →
  S (empties (<[i:=p]> b)) = empties b.
Proof.
  unfold empties. revert i. induction b as [|c b IH]; intros [|i] Hi Hp; try done.
  - cbn in Hi. injection Hi as ->. cbn [insert list_insert].
    by rewrite (count_occ_cons_neq _ b Hp), (count_occ_cons_eq _ b eq_refl).
  - cbn in Hi. cbn [insert list_insert count_occ].
    destruct (Ascii.ascii_dec c "e"); rewrite <- (IH i) by done; done.
Qed.

(** ** The search loop *)

Section LoopFacts.
Variable rec : board → Z → ext → ext → bool → res search.
Variables (depth : Z) (isX : bool) (player : ascii).

(** One turn of the loop, when the recursive call hands the board back as
    it received it. *)
Lemma for_moves_step (move : Z) (rest : list Z) (b : board)
    (u : ext) (bm : Z) (α β tu : ext) (pos : Z) :
  0 ≤ move < Z.of_nat (length b) →
  b !! Z.to_nat move = Some "e"%char →
  rec (<[Z.to_nat move:=player]> b) (depth - 1) α β (negb isX)
    = Ok (tu, pos, <[Z.to_nat move:=player]> b) →
  for_moves rec depth isX player (move :: rest) b u bm α β =
    let u' := if improves isX tu u then tu else u in
    let bm' := if improves isX tu u then move else bm in
    let α' := if isX then py_max u' α else α in
    let β' := if isX then β else py_min u' β in
    if ext_geb α' β' then Ok (u', bm', b)
    else for_moves rec depth isX player rest b u' bm' α' β'.
Proof.
  intros Hm He Hrec. cbn [for_moves].
  rewrite setitem_ok, bind_Ok, Hrec, bind_Ok by done.
  rewrite setitem_ok, bind_Ok by (by rewrite length_insert).
  rewrite list_insert_insert_eq, list_insert_id by done.
  unfold improves. destruct isX.
  - by destruct (ext_gtb tu u).
  - by destruct (ext_ltb tu u).
Qed.

(** The loop returns, with the board as it found it; its result is the
    state it started from or a child's utility with that child's move. *)
Lemma for_moves_inv (P : ext → Prop) (b : board) (ms : list Z) :
  (∀ m, m ∈ ms → 0 ≤ m < Z.of_nat (length b) ∧ b !! Z.to_nat m = Some "e"%char) →
  (∀ m α β, m ∈ ms → ∃ tu pos,
      rec (<[Z.to_nat m:=player]> b) (depth - 1) α β (negb isX)
        = Ok (tu, pos, <[Z.to_nat m:=player]> b) ∧ P tu) →
  ∀ u bm α β, ∃ u' bm',
    for_moves rec depth isX player ms b u bm α β = Ok (u', bm', b) ∧
    ((u' = u ∧ bm' = bm) ∨ (P u' ∧ bm' ∈ ms)) ∧
    (ms ≠ [] → (∀ t, P t → improves isX t u = true) → P u' ∧ bm' ∈ ms).
Proof.
  induction ms as [|m rest IH]; intros Hms Hrec u bm α β.
  - exists u, bm. cbn. split; [done|]. split; [by left|done].
  - destruct (Hms m) as [Hm He]; [by left|].
    destruct (Hrec m α β) as (tu & pos & Hcall & Htu); [by left|].
    rewrite (for_moves_step _ _ _ _ _ _ _ tu pos) by done. cbn zeta.
    set (u1 := if improves isX tu u then tu else u).
    set (bm1 := if improves isX tu u then m else bm).
    set (α1 := if isX then py_max u1 α else α).
    set (β1 := if isX then β else py_min u1 β).
    assert (Hstep : (u1 = u ∧ bm1 = bm) ∨ (P u1 ∧ bm1 = m)).
    { subst u1 bm1. destruct (improves isX tu u); [by right|by left]. }
    assert (Hfirst : (∀ t, P t → improves isX t u = true) → P u1 ∧ bm1 = m).
    { intros Himp. subst u1 bm1. by rewrite (Himp tu Htu). }
    destruct (ext_geb α1 β1).
    + exists u1, bm1. split; [done|]. split.
      * destruct Hstep as [?|[? ->]]; [by left|right; split; [done|by left]].
      * intros _ Himp. destruct (Hfirst Himp) as [? ->]. split; [done|by left].
    + destruct (IH (λ m' Hm', Hms m' (list_elem_of_further _ _ _ Hm'))
                   (λ m' a' b' Hm', Hrec m' a' b' (list_elem_of_further _ _ _ Hm'))
                   u1 bm1 α1 β1) as (u2 & bm2 & Hloop & Hres & _).
      exists u2, bm2. split; [done|]. split.
      * destruct Hres as [[-> ->]|[? ?]].
        -- destruct Hstep as [?|[? ->]]; [by left|right; split; [done|by left]].
        -- right. split; [done|by right].
      * intros _ Himp. destruct (Hfirst Himp) as [? Hbm1].
        destruct Hres as [[-> ->]|[? ?]].
        -- rewrite Hbm1. split; [done|by left].
        -- split; [done|by right].
Qed.
End LoopFacts.

(** ** [minimax] of [tic_tac_toe.py]: it returns, restores the board, and
    its utility is an integer *)

Lemma ttt_cutoff_eq (b : board) (d : Z) (ms : list Z) (x : bool) :
  wf b → TicTacToe.cutoff b d ms x = Ok ((d =? 0) || is_nil ms).
Proof.
  intros Hb. unfold TicTacToe.cutoff.
  by rewrite or_Ok, check_win_bool, or_Ok, orb_false_r.
Qed.

Lemma soa_cutoff_eq (b : board) (d : Z) (x : bool) :
  wf b → SOA.cutoff b d x = Ok (d =? 0).
Proof.
  intros Hb. unfold SOA.cutoff. by rewrite check_win_bool, or_Ok, orb_false_r.
Qed.

Lemma mark_not_e (x : bool) : mark x ≠ "e"%char.
Proof. by destruct x. Qed.

Lemma improves_worst (x : bool) (t : ext) : is_fin t → improves x t (worst x) = true.
Proof. intros [z ->]. by destruct x. Qed.

Lemma ttt_minimax_rec_unfold (fuel : nat) (b : board) (d : Z) (α β : ext)
    (x : bool) (ms : list Z) :
  wf b → generate_moves b = Ok ms →
  TicTacToe.minimax_rec (S fuel) b d α β x =
    if (d =? 0) || is_nil ms then h ← heuristic b; Ok (Fin h, -1, b)
    else for_moves (TicTacToe.minimax_rec fuel) d x (mark x) ms b (worst x) (-1) α β.
Proof.
  intros Hb Hms. cbn [TicTacToe.minimax_rec].
  rewrite Hms, bind_Ok. destruct x; cbn zeta beta iota;
    by rewrite ttt_cutoff_eq, bind_Ok.
Qed.

Lemma ttt_minimax_rec_spec (fuel : nat) :
  ∀ (b : board) (d : Z) (α β : ext) (x : bool),
    wf b → (empties b < fuel)%nat →
    ∃ ms h, generate_moves b = Ok ms ∧ heuristic b = Ok h ∧
      if (d =? 0) || is_nil ms
      then TicTacToe.minimax_rec fuel b d α β x = Ok (Fin h, -1, b)
      else ∃ u m, TicTacToe.minimax_rec fuel b d α β x = Ok (Fin u, m, b)
                  ∧ m ∈ ms.
Proof.
  induction fuel as [|fuel IH]; intros b d α β x Hb Hfuel; [lia|].
  destruct (heuristic_total b Hb) as [h Hh].
  pose proof (generate_moves_eq b Hb) as Hg.
  set (ms := if wins b "x" || wins b "o" then [] else empty_cells b) in Hg.
  exists ms, h. split; [done|]. split; [done|].
  rewrite (ttt_minimax_rec_unfold fuel b d α β x ms) by done.
  destruct ((d =? 0) || is_nil ms) eqn:Hcut; [by rewrite Hh|].
  destruct (for_moves_inv (TicTacToe.minimax_rec fuel) d x (mark x) is_fin b ms)
    with (u := worst x) (bm := -1) (α := α) (β := β)
    as (u' & m' & Hloop & _ & Hres).
  - intros m Hm. destruct (generate_moves_elem b ms m) as [? ?]; try done.
    rewrite Hb. split; [lia|done].
  - intros m α' β' Hm.
    destruct (generate_moves_elem b ms m) as [? He]; try done.
    pose proof (empties_insert b (Z.to_nat m) (mark x) He (mark_not_e x)).
    destruct (IH (<[Z.to_nat m:=mark x]> b) (d - 1) α' β' (negb x))
      as (ms' & h' & _ & _ & Hrec); [by apply wf_insert|lia|].
    destruct ((d - 1 =? 0) || is_nil ms').
    + exists (Fin h'), (-1). split; [done|by eexists].
    + destruct Hrec as (u1 & m1 & -> & _). exists (Fin u1), m1.
      split; [done|by eexists].
  - destruct Hres as [[u Hu] Hm'].
    + intros ->. by rewrite orb_true_r in Hcut.
    + intros t. apply improves_worst.
    + exists u, m'. by rewrite Hloop, Hu.
Qed.

(** ** [minimax] of [SOA_TTT.py]: it returns and restores the board *)

Lemma soa_minimax_rec_frame (fuel : nat) :
  ∀ (b : board) (d : Z) (α β : ext) (x : bool),
    wf b → (empties b < fuel)%nat →
    ∃ u m, SOA.minimax_rec fuel b d α β x = Ok (u, m, b).
Proof.
  induction fuel as [|fuel IH]; intros b d α β x Hb Hfuel; [lia|].
  destruct (heuristic_total b Hb) as [h Hh].
  pose proof (generate_moves_eq b Hb) as Hg.
  set (ms := if wins b "x" || wins b "o" then [] else empty_cells b) in Hg.
  assert (Hunfold : SOA.minimax_rec (S fuel) b d α β x =
    if d =? 0 then Ok (Fin h, -1, b)
    else for_moves (SOA.minimax_rec fuel) d x (mark x) ms b (worst x) (-1) α β).
  { cbn [SOA.minimax_rec].
    destruct x; cbn zeta beta iota; rewrite soa_cutoff_eq, bind_Ok by done;
      (destruct (d =? 0); [by rewrite Hh|by rewrite Hg]). }
  rewrite Hunfold. destruct (d =? 0); [by eauto|].
  destruct (for_moves_inv (SOA.minimax_rec fuel) d x (mark x) (λ _, True) b ms)
    with (u := worst x) (bm := -1) (α := α) (β := β)
    as (u' & m' & Hloop & _); [| |by eauto].
  - intros m Hm. destruct (generate_moves_elem b ms m) as [? ?]; try done.
    rewrite Hb. split; [lia|done].
  - intros m α' β' Hm.
    destruct (generate_moves_elem b ms m) as [? He]; try done.
    pose proof (empties_insert b (Z.to_nat m) (mark x) He (mark_not_e x)).
    destruct (IH (<[Z.to_nat m:=mark x]> b) (d - 1) α' β' (negb x))
      as (u1 & m1 & Hrec); [by apply wf_insert|lia|]. eauto.
Qed.

Ltac ext_simpl :=
  cbn [ext_ltb negb] in *;
  repeat match goal with
    | H : ?a = ?a → _ |- _ => specialize (H eq_refl)
    | H : true = false → _ |- _ => clear H
    | H : false = true → _ |- _ => clear H
    | H : _ ∧ _ |- _ => destruct H
    end;
  try discriminate.

Ltac ext_brute :=
  repeat (match goal with x : ext |- _ => destruct x end; ext_simpl);
  repeat (match goal with
          | H : context [Z.ltb ?x ?y] |- _ => destruct (Z.ltb_spec x y)
          | |- context [Z.ltb ?x ?y] => destruct (Z.ltb_spec x y)
          end; ext_simpl);
  repeat split; intros; simplify_eq; try done; try lia; try (f_equal; lia).

Ltac ext_unfold :=
  unfold loop_inv, rel, lt_for, lo, hi, improves, worst, py_max, py_min,
    ext_geb, ext_gtb in *;
  cbn zeta in *.

Lemma rel_refl (α β t : ext) (m : Z) : rel α β t t m m.
Proof. unfold rel. tauto. Qed.

Lemma inv_init (x : bool) (α β : ext) :
  ext_ltb α β = true →
  loop_inv x α β (worst x) (-1) (lo x α β) (worst x) (-1).
Proof. intros H. ext_unfold. destruct x; ext_brute. Qed.

Lemma inv_window (x : bool) (α β u : ext) (bm : Z) (a T : ext) (tbm : Z) :
  loop_inv x α β u bm a T tbm →
  ext_ltb (if x then a else α) (if x then β else a) = true.
Proof. intros (H & _). ext_unfold. by destruct x. Qed.

Lemma inv_final (x : bool) (α β u : ext) (bm : Z) (a T : ext) (tbm : Z) :
  loop_inv x α β u bm a T tbm → rel α β T u bm tbm.
Proof.
  intros (H1 & H2 & H3 & H4 & H5). ext_unfold.
  destruct x; intuition congruence.
Qed.

Lemma inv_step (x : bool) (α β u : ext) (bm : Z) (a T : ext) (tbm : Z)
    (ti vi : ext) (p tmi m : Z) :
  loop_inv x α β u bm a T tbm →
  rel (if x then a else α) (if x then β else a) ti vi p tmi →
  let u1 := if improves x vi u then vi else u in
  let bm1 := if improves x vi u then m else bm in
  let a1 := if x then py_max u1 a else py_min u1 a in
  let T1 := if improves x ti T then ti else T in
  let tbm1 := if improves x ti T then m else tbm in
  ext_geb (if x then a1 else α) (if x then β else a1) = false →
  loop_inv x α β u1 bm1 a1 T1 tbm1.
Proof.
  ext_unfold.
  destruct x; intros (H1 & H2 & H3 & H4 & H5) (R1 & R2 & R3) Hb; subst a;
    ext_brute.
Qed.

Lemma inv_break (x : bool) (α β u : ext) (bm : Z) (a T : ext) (tbm : Z)
    (ti vi : ext) (p tmi m : Z) (t : ext) (tm : Z) :
  loop_inv x α β u bm a T tbm →
  rel (if x then a else α) (if x then β else a) ti vi p tmi →
  let u1 := if improves x vi u then vi else u in
  let bm1 := if improves x vi u then m else bm in
  let a1 := if x then py_max u1 a else py_min u1 a in
  let T1 := if improves x ti T then ti else T in
  ext_geb (if x then a1 else α) (if x then β else a1) = true →
  lt_for x t T1 = false →
  rel α β t u1 bm1 tm.
Proof.
  ext_unfold.
  destruct x; intros (H1 & H2 & H3 & H4 & H5) (R1 & R2 & R3) Hb Ht; subst a;
    ext_brute.
Qed.

Lemma lt_for_mono (x : bool) (t T ti : ext) :
  lt_for x t (if improves x ti T then ti else T) = false → lt_for x t T = false.
Proof. ext_unfold. destruct x; intros H; ext_brute. Qed.

(** ** Pruning does not change the result *)

Section Pruning.
Variable rec : board → Z → ext → ext → bool → res search.
Variable erec : board → Z → bool → res (ext * Z).
Variables (d : Z) (x : bool) (b : board).

Lemma exhaustive_moves_step (m : Z) (rest : list Z) (T : ext) (tbm : Z)
    (ti : ext) (tmi : Z) :
  0 ≤ m < Z.of_nat (length b) →
  erec (<[Z.to_nat m:=mark x]> b) (d - 1) (negb x) = Ok (ti, tmi) →
  exhaustive_moves erec d x (mark x) b (m :: rest) T tbm =
    exhaustive_moves erec d x (mark x) b rest
      (if improves x ti T then ti else T) (if improves x ti T then m else tbm).
Proof.
  intros Hm He. cbn [exhaustive_moves].
  rewrite setitem_ok, bind_Ok, He, bind_Ok by done.
  unfold improves. destruct x.
  - by destruct (ext_gtb ti T).
  - by destruct (ext_ltb ti T).
Qed.

Lemma exhaustive_moves_mono (ms : list Z) :
  (∀ m, m ∈ ms → 0 ≤ m < Z.of_nat (length b)) →
  (∀ m, m ∈ ms → ∃ ti tmi, erec (<[Z.to_nat m:=mark x]> b) (d - 1) (negb x) = Ok (ti, tmi)) →
  ∀ T tbm, ∃ t tm,
    exhaustive_moves erec d x (mark x) b ms T tbm = Ok (t, tm) ∧
    lt_for x t T = false.
Proof.
  induction ms as [|m rest IH]; intros Hms He T tbm.
  - exists T, tbm. split; [done|]. unfold lt_for. destruct x; ext_brute.
  - destruct (He m) as (ti & tmi & Hti); [by left|].
    rewrite (exhaustive_moves_step m rest T tbm ti tmi)
      by (done || apply Hms; by left).
    destruct (IH (λ m' Hm', Hms m' (list_elem_of_further _ _ _ Hm'))
                 (λ m' Hm', He m' (list_elem_of_further _ _ _ Hm'))
                 (if improves x ti T then ti else T)
                 (if improves x ti T then m else tbm)) as (t & tm & Ht & Hle).
    exists t, tm. split; [done|]. by eapply lt_for_mono.
Qed.

Lemma for_moves_rel (ms : list Z) :
  (∀ m, m ∈ ms →
     0 ≤ m < Z.of_nat (length b) ∧ b !! Z.to_nat m = Some "e"%char) →
  (∀ m, m ∈ ms → ∃ ti tmi,
     erec (<[Z.to_nat m:=mark x]> b) (d - 1) (negb x) = Ok (ti, tmi) ∧
     ∀ α β, ext_ltb α β = true → ∃ vi p,
       rec (<[Z.to_nat m:=mark x]> b) (d - 1) α β (negb x) = Ok (vi, p, <[Z.to_nat m:=mark x]> b) ∧
       rel α β ti vi p tmi) →
  ∀ α β u bm a T tbm,
    loop_inv x α β u bm a T tbm →
    ∃ v m t tm,
      for_moves rec d x (mark x) ms b u bm
        (if x then a else α) (if x then β else a) = Ok (v, m, b) ∧
      exhaustive_moves erec d x (mark x) b ms T tbm = Ok (t, tm) ∧
      rel α β t v m tm.
Proof.
  induction ms as [|m rest IH]; intros Hms Hch α β u bm a T tbm Hinv.
  - exists u, bm, T, tbm. split; [done|]. split; [done|].
    by eapply inv_final.
  - destruct (Hms m) as [Hm He]; [by left|].
    destruct (Hch m) as (ti & tmi & Hti & Hrec); [by left|].
    destruct (Hrec _ _ (inv_window _ _ _ _ _ _ _ _ Hinv))
      as (vi & p & Hvi & Hrel).
    rewrite (for_moves_step rec d x (mark x) m rest b u bm _ _ vi p)
      by done.
    rewrite (exhaustive_moves_step m rest T tbm ti tmi) by done.
    cbn zeta.
    set (u1 := if improves x vi u then vi else u).
    set (bm1 := if improves x vi u then m else bm).
    set (T1 := if improves x ti T then ti else T).
    set (tbm1 := if improves x ti T then m else tbm).
    set (a1 := if x then py_max u1 a else py_min u1 a).
    assert (
      (if x then py_max u1 (if x then a else α) else if x then a else α)
        = (if x then a1 else α) ∧
      (if x then if x then β else a else py_min u1 (if x then β else a))
        = (if x then β else a1)) as [-> ->].
    { subst a1. by destruct x. }
    destruct (ext_geb (if x then a1 else α) (if x then β else a1)) eqn:Hbr.
    + destruct (exhaustive_moves_mono rest) with (T := T1) (tbm := tbm1)
        as (t & tm & Ht & Hle).
      { intros m' Hm'. apply Hms. by right. }
      { intros m' Hm'. destruct (Hch m') as (ti' & tmi' & ? & _); [by right|].
        eauto. }
      exists u1, bm1, t, tm. split; [done|]. split; [done|].
      by eapply (inv_break x α β u bm a T tbm ti vi p tmi m t tm).
    + apply IH.
      * intros m' Hm'. apply Hms. by right.
      * intros m' Hm'. apply Hch. by right.
      * by eapply (inv_step x α β u bm a T tbm ti vi p tmi m).
Qed.
End Pruning.

Lemma exhaustive_rec_unfold (fuel : nat) (b : board) (d : Z) (x : bool) :
  wf b →
  exhaustive_rec (S fuel) b d x =
    let ms := if wins b "x" || wins b "o" then [] else empty_cells b in
    if (d =? 0) || is_nil ms then h ← heuristic b; Ok (Fin h, -1)
    else exhaustive_moves (exhaustive_rec fuel) d x (mark x) b ms (worst x) (-1).
Proof.
  intros Hb. cbn [exhaustive_rec].
  rewrite generate_moves_eq, bind_Ok, check_win_wins, bind_Ok by done.
  cbn zeta. destruct x, (wins b "x"), (wins b "o"), (d =? 0); try done;
    cbn [orb is_nil]; by destruct (is_nil (empty_cells b)).
Qed.

Lemma minimax_rec_rel (fuel : nat) :
  ∀ (b : board) (d : Z) (α β : ext) (x : bool),
    wf b → (empties b < fuel)%nat → ext_ltb α β = true →
    ∃ v m t tm,
      TicTacToe.minimax_rec fuel b d α β x = Ok (v, m, b) ∧
      exhaustive_rec fuel b d x = Ok (t, tm) ∧
      rel α β t v m tm.
Proof.
  induction fuel as [|fuel IH]; intros b d α β x Hb Hfuel Hαβ; [lia|].
  destruct (heuristic_total b Hb) as [h Hh].
  pose proof (generate_moves_eq b Hb) as Hg.
  set (ms := if wins b "x" || wins b "o" then [] else empty_cells b) in Hg.
  rewrite (ttt_minimax_rec_unfold fuel b d α β x ms) by done.
  rewrite (exhaustive_rec_unfold fuel b d x) by done. cbn zeta. fold ms.
  destruct ((d =? 0) || is_nil ms).
  { rewrite Hh. exists (Fin h), (-1), (Fin h), (-1).
    split; [done|]. split; [done|]. apply rel_refl. }
  destruct (for_moves_rel (TicTacToe.minimax_rec fuel) (exhaustive_rec fuel)
              d x b ms)
    with (α := α) (β := β) (u := worst x) (bm := -1) (a := lo x α β)
         (T := worst x) (tbm := -1)
    as (v & m & t & tm & Hv & Ht & Hrel).
  - intros m Hm. destruct (generate_moves_elem b ms m) as [? ?]; try done.
    rewrite Hb. split; [lia|done].
  - intros m Hm.
    destruct (generate_moves_elem b ms m) as [? He]; try done.
    pose proof (empties_insert b (Z.to_nat m) (mark x) He (mark_not_e x)).
    assert (Hwf : wf (<[Z.to_nat m:=mark x]> b)) by by apply wf_insert.
    destruct (IH (<[Z.to_nat m:=mark x]> b) (d - 1) NInf PInf (negb x))
      as (_ & _ & ti & tmi & _ & Hti & _); [done|lia|done|].
    exists ti, tmi. split; [done|]. intros α' β' Hlt.
    destruct (IH (<[Z.to_nat m:=mark x]> b) (d - 1) α' β' (negb x))
      as (vi & p & ti' & tmi' & Hvi & Hti' & Hrel); [done|lia|done|].
    rewrite Hti in Hti'. injection Hti' as <- <-. eauto.
  - by apply inv_init.
  - exists v, m, t, tm. split; [|done].
    rewrite <- Hv. unfold lo. by destruct x.
Qed.

(** ** More fuel does not change a result *)

Lemma bind_Ok_inv {A B} (m : res A) (f : A → res B) (r : B) :
  (m ≫= f) = Ok r → ∃ a, m = Ok a ∧ f a = Ok r.
Proof. destruct m as [a| |]; [by exists a|done|done]. Qed.

Section FuelLoop.
Variables rec rec' : board → Z → ext → ext → bool → res search.
Hypothesis rec_le : ∀ b d α β x r, rec b d α β x = Ok r → rec' b d α β x = Ok r.

Lemma for_moves_more_fuel (d : Z) (x : bool) (p : ascii) (ms : list Z) :
  ∀ b u bm α β r,
    for_moves rec d x p ms b u bm α β = Ok r →
    for_moves rec' d x p ms b u bm α β = Ok r.
Proof.
  induction ms as [|m rest IH]; intros b u bm α β r; [done|].
  cbn [for_moves]. intros H.
  apply bind_Ok_inv in H as (b1 & -> & H). rewrite bind_Ok.
  apply bind_Ok_inv in H as ([[tu pos] b2] & Hrec & H).
  rewrite (rec_le _ _ _ _ _ _ Hrec), bind_Ok.
  apply bind_Ok_inv in H as (b3 & -> & H). rewrite bind_Ok.
  destruct x.
  - destruct (ext_gtb tu u); (destruct (ext_geb _ β); [done|by apply IH]).
  - destruct (ext_ltb tu u); (destruct (ext_geb α _); [done|by apply IH]).
Qed.
End FuelLoop.

Lemma ttt_minimax_rec_more_fuel (fuel : nat) :
  ∀ b d α β x r,
    TicTacToe.minimax_rec fuel b d α β x = Ok r →
    TicTacToe.minimax_rec (S fuel) b d α β x = Ok r.
Proof.
  induction fuel as [|fuel IH]; intros b d α β x r; [done|].
  intros H. cbn [TicTacToe.minimax_rec] in H |- *.
  apply bind_Ok_inv in H as (ms & -> & H). rewrite bind_Ok.
  destruct x; cbn zeta beta iota in H |- *;
    apply bind_Ok_inv in H as (cut & -> & H); rewrite bind_Ok;
    (destruct cut; [done|]);
    by apply (for_moves_more_fuel (TicTacToe.minimax_rec fuel)).
Qed.

Lemma soa_minimax_rec_more_fuel (fuel : nat) :
  ∀ b d α β x r,
    SOA.minimax_rec fuel b d α β x = Ok r →
    SOA.minimax_rec (S fuel) b d α β x = Ok r.
Proof.
  induction fuel as [|fuel IH]; intros b d α β x r; [done|].
  intros H. cbn [SOA.minimax_rec] in H |- *.
  destruct x; cbn zeta beta iota in H |- *;
    apply bind_Ok_inv in H as (cut & -> & H); rewrite bind_Ok;
    (destruct cut; [done|]);
    apply bind_Ok_inv in H as (ms & -> & H); rewrite bind_Ok;
    by apply (for_moves_more_fuel (SOA.minimax_rec fuel)).
Qed.

(** Any fuel above the number of empty cells gives the result of
    [minimax]. *)
Lemma ttt_minimax_enough_fuel (fuel : nat) (b : board) (d : Z) (α β : ext)
    (x : bool) :
  wf b → (empties b < fuel)%nat →
  TicTacToe.minimax_rec fuel b d α β x = TicTacToe.minimax b d α β x.
Proof.
  intros Hb Hfuel. unfold TicTacToe.minimax.
  destruct (ttt_minimax_rec_spec (S (empties b)) b d α β x Hb)
    as (ms & h & _ & _ & Hres); [lia|].
  assert (∃ r, TicTacToe.minimax_rec (S (empties b)) b d α β x = Ok r)
    as [r Hr].
  { destruct ((d =? 0) || is_nil ms); [by eauto|].
    destruct Hres as (u & m & -> & _). by eauto. }
  rewrite Hr. clear Hres.
  replace fuel with ((fuel - S (empties b)) + S (empties b))%nat by lia.
  induction (fuel - S (empties b))%nat as [|k IHk]; [done|].
  by apply ttt_minimax_rec_more_fuel.
Qed.

Lemma soa_minimax_enough_fuel (fuel : nat) (b : board) (d : Z) (α β : ext)
    (x : bool) :
  wf b → (empties b < fuel)%nat →
  SOA.minimax_rec fuel b d α β x = SOA.minimax b d α β x.
Proof.
  intros Hb Hfuel. unfold SOA.minimax.
  destruct (soa_minimax_rec_frame (S (empties b)) b d α β x Hb)
    as (u & m & Hr); [lia|].
  rewrite Hr.
  replace fuel with ((fuel - S (empties b)) + S (empties b))%nat by lia.
  induction (fuel - S (empties b))%nat as [|k IHk]; [done|].
  by apply soa_minimax_rec_more_fuel.
Qed.

(** With the full window the pruned search agrees with the exhaustive one,
    at any sufficient fuel. *)
Lemma minimax_rec_exhaustive_rec (fuel : nat) (b : board) (d : Z) (x : bool) :
  wf b → (empties b < fuel)%nat →
  ∃ u m, TicTacToe.minimax_rec fuel b d NInf PInf x = Ok (u, m, b) ∧
         exhaustive_rec fuel b d x = Ok (u, m).
Proof.
  intros Hb Hfuel.
  destruct (minimax_rec_rel fuel b d NInf PInf x)
    as (v & m & t & tm & Hv & Ht & Hrel); [done..|].
  destruct (ttt_minimax_rec_spec fuel b d NInf PInf x Hb Hfuel)
    as (ms & h & _ & _ & Hres).
  assert (Hfin : is_fin v).
  { rewrite Hv in Hres. destruct ((d =? 0) || is_nil ms).
    - injection Hres as -> _. by eexists.
    - destruct Hres as (u & m' & [= -> _] & _). by eexists. }
  destruct Hfin as [z ->]. destruct Hrel as (Hlo & Hhi & Hin).
  destruct t as [|t|]; [by specialize (Hlo eq_refl)| |by specialize (Hhi eq_refl)].
  destruct (Hin eq_refl eq_refl) as [[= ->] ->].
  exists (Fin t), tm. done.
Qed.

Lemma exhaustive_enough_fuel (fuel : nat) (b : board) (d : Z) (x : bool) :
  wf b → (empties b < fuel)%nat →
  exhaustive_rec fuel b d x = exhaustive b d x.
Proof.
  intros Hb Hfuel. unfold exhaustive.
  destruct (minimax_rec_exhaustive_rec fuel b d x Hb Hfuel)
    as (u & m & Hv & ->).
  destruct (minimax_rec_exhaustive_rec (S (empties b)) b d x Hb)
    as (u' & m' & Hv' & ->); [lia|].
  rewrite ttt_minimax_enough_fuel in Hv, Hv' by (done || lia).
  rewrite Hv in Hv'. by injection Hv' as <- <-.
Qed.

(** * The properties of the specification, C1 to C10 *)

(** ** The search of [tic_tac_toe.py] on its own *)

Lemma ttt_minimax_spec (b : board) (d : Z) (α β : ext) (x : bool) :
  wf b →
  ∃ ms h, generate_moves b = Ok ms ∧ heuristic b = Ok h ∧
    if (d =? 0) || is_nil ms
    then TicTacToe.minimax b d α β x = Ok (Fin h, -1, b)
    else ∃ u m, TicTacToe.minimax b d α β x = Ok (Fin u, m, b) ∧ m ∈ ms.
Proof.
  intros Hb. apply ttt_minimax_rec_spec; [done|]. unfold lt. done.
Qed.

(** In [tic_tac_toe.py] the search returns the heuristic value and [-1]
    exactly on [depth == 0] or an empty move list. *)
Lemma ttt_minimax_cutoff_iff (b : board) (d : Z) (α β : ext) (x : bool)
    (ms : list Z) (h : Z) :
  wf b → generate_moves b = Ok ms → heuristic b = Ok h →
  TicTacToe.minimax b d α β x = Ok (Fin h, -1, b) ↔ d = 0 ∨ ms = [].
Proof.
  intros Hb Hms Hh.
  destruct (ttt_minimax_spec b d α β x Hb) as (ms' & h' & Hms' & Hh' & Hres).
  rewrite Hms in Hms'. injection Hms' as <-.
  rewrite Hh in Hh'. injection Hh' as <-.
  destruct (Z.eqb_spec d 0) as [->|Hd]; cbn [orb] in Hres.
  { split; [by left|done]. }
  destruct ms as [|m0 ms]; cbn [is_nil] in Hres.
  { split; [by right|done]. }
  destruct Hres as (u & m & Hres & Hm). rewrite Hres. split.
  - intros [= -> ->].
    destruct (generate_moves_elem b _ (-1) Hb Hms Hm) as [? _]. lia.
  - intros [?|?]; done.
Qed.

(** In [tic_tac_toe.py] a search with candidates and [depth] other than 0
    returns one of the candidates, which is a cell index. *)
Lemma ttt_minimax_move_present (b : board) (d : Z) (α β : ext) (x : bool)
    (ms : list Z) :
  wf b → generate_moves b = Ok ms → ms ≠ [] → d ≠ 0 →
  ∃ u m, TicTacToe.minimax b d α β x = Ok (Fin u, m, b) ∧ m ∈ ms ∧ 0 ≤ m ≤ 8.
Proof.
  intros Hb Hms Hne Hd.
  destruct (ttt_minimax_spec b d α β x Hb) as (ms' & h' & Hms' & _ & Hres).
  rewrite Hms in Hms'. injection Hms' as <-.
  destruct (Z.eqb_spec d 0) as [?|_]; [done|].
  destruct ms as [|m0 ms]; [done|]. cbn [orb is_nil] in Hres.
  destruct Hres as (u & m & Hres & Hm). exists u, m.
  split; [done|]. split; [done|].
  destruct (generate_moves_elem b _ m Hb Hms Hm) as [? _]. lia.
Qed.

(** ** C1 *)

(** C1.  The cutoff of [SOA_TTT.py] tests [depth == 0] only.  On a full
    board, and on a board the side that just moved has won, a search with
    [depth] 1 does not return the heuristic value: it finds no candidate and
    returns the infinite utility it started from.  [tic_tac_toe.py], which
    also tests the move list, returns the heuristic value on both. *)
Theorem C1_soa_cutoff_misses_empty_move_list :
  generate_moves drawn_board = Ok [] ∧
  heuristic drawn_board = Ok 0 ∧
  SOA.minimax drawn_board 1 NInf PInf true = Ok (NInf, -1, drawn_board) ∧
  TicTacToe.minimax drawn_board 1 NInf PInf true = Ok (Fin 0, -1, drawn_board) ∧
  check_win x_won_board (cell "x") = Ok true ∧
  generate_moves x_won_board = Ok [] ∧
  heuristic x_won_board = Ok 91 ∧
  SOA.minimax x_won_board 1 NInf PInf false = Ok (PInf, -1, x_won_board) ∧
  TicTacToe.minimax x_won_board 1 NInf PInf false
    = Ok (Fin 91, -1, x_won_board).
Proof. repeat split; vm_compute; reflexivity. Qed.

(** ** C2 *)

(** C2.  In [SOA_TTT.py] a search with two candidates and the depth the
    callers pass returns the sentinel [-1] and an infinite utility: the
    full boards below return [-inf], which never is strictly greater than
    the [-inf] the maximiser starts from.  [tic_tac_toe.py] returns
    candidate 7 on the same board. *)
Theorem C2_soa_returns_no_move :
  generate_moves two_left_board = Ok [7; 8] ∧
  SOA.minimax two_left_board 100 NInf PInf true = Ok (NInf, -1, two_left_board) ∧
  SOA.choose_move two_left_board 100 true = Ok (-1, two_left_board) ∧
  TicTacToe.minimax two_left_board 100 NInf PInf true
    = Ok (Fin 0, 7, two_left_board).
Proof. repeat split; vm_compute; reflexivity. Qed.

(** ** C3 *)

(** A line scores what the specification says, but for the two patterns
    with the empty cell in the middle, which score nothing. *)
Lemma line_score_game_cells (a b c : ascii) :
  game_cell a → game_cell b → game_cell c →
  line_score (line3 a b c) =
    if String.eqb (line3 a b c) "xex" || String.eqb (line3 a b c) "oeo"
    then 0 else spec_line_score a b c.
Proof.
  intros [->|[->| ->]] [->|[->| ->]] [->|[->| ->]]; reflexivity.
Qed.

(** C3.  A line with two equal marks around an empty cell is in none of the
    pattern lists of [heuristic] and contributes 0 where the specification has ±10:
    the board with ['x'] in cells 0 and 2 only scores 4, one for each of the
    four lines with a single ['x'], and nothing for the top row. *)
Theorem C3_heuristic_misses_split_pair :
  line_score "xex" = 0 ∧ line_score "oeo" = 0 ∧
  spec_line_score "x" "e" "x" = 10 ∧ spec_line_score "o" "e" "o" = -10 ∧
  line_score "xxe" = 10 ∧ line_score "exx" = 10 ∧
  heuristic split_pair_board = Ok 4.
Proof. repeat split; reflexivity. Qed.

(** ** C4 *)

(** C4.  On a board of nine cells [minimax] returns, in both variants, and
    the board it leaves is the board it was given, for every depth, window
    and side. *)
Theorem C4_minimax_restores_board (b : board) (d : Z) (α β : ext) (x : bool) :
  wf b →
  (∃ u m, TicTacToe.minimax b d α β x = Ok (u, m, b)) ∧
  (∃ u m, SOA.minimax b d α β x = Ok (u, m, b)).
Proof.
  intros Hb. split.
  - destruct (ttt_minimax_spec b d α β x Hb) as (ms & h & _ & _ & Hres).
    destruct ((d =? 0) || is_nil ms); [by eauto|].
    destruct Hres as (u & m & Hres & _). eauto.
  - apply soa_minimax_rec_frame; [done|]. unfold lt. done.
Qed.

Lemma C4_minimax_restores_board_witness :
  wf two_left_board ∧
  (∃ u m, TicTacToe.minimax two_left_board 100 NInf PInf true
            = Ok (u, m, two_left_board)) ∧
  (∃ u m, SOA.minimax two_left_board 100 NInf PInf true
            = Ok (u, m, two_left_board)).
Proof.
  split; [reflexivity|].
  apply (C4_minimax_restores_board two_left_board 100 NInf PInf true).
  reflexivity.
Defined.

(** ** C5 *)

(** C5.  Started with the window [(-inf, inf)], the pruned search of
    [tic_tac_toe.py] returns the utility and the move of the exhaustive
    search, for every board of nine cells, depth and side. *)
Theorem C5_pruning_preserves_result (b : board) (d : Z) (x : bool) :
  wf b →
  ∃ u m, TicTacToe.minimax b d NInf PInf x = Ok (u, m, b) ∧
         exhaustive b d x = Ok (u, m).
Proof.
  intros Hb. apply minimax_rec_exhaustive_rec; [done|]. unfold lt. done.
Qed.

Lemma C5_pruning_preserves_result_witness :
  wf two_left_board ∧
  ∃ u m, TicTacToe.minimax two_left_board 100 NInf PInf true
           = Ok (u, m, two_left_board) ∧
         exhaustive two_left_board 100 true = Ok (u, m).
Proof.
  split; [reflexivity|].
  apply (C5_pruning_preserves_result two_left_board 100 true). reflexivity.
Defined.

(** ** C6 *)

Lemma is_at_true (b : board) (i : Z) (p : ascii) :
  is_at b i p = true ↔ b !! Z.to_nat i = Some p.
Proof.
  unfold is_at. destruct (b !! Z.to_nat i) as [c|]; [|done].
  rewrite Ascii.eqb_eq. split; congruence.
Qed.

Lemma wins_full_line (b : board) (p : ascii) : wins b p = true ↔ full_line b p.
Proof.
  rewrite wins_spec. unfold full_line.
  split; intros (line & Hin & Hall); exists line; (split; [done|]);
    intros i Hi; apply is_at_true, Hall, Hi.
Qed.

Lemma check_win_full_line (b : board) (p : ascii) :
  wf b → check_win b (cell p) = Ok true ↔ full_line b p.
Proof.
  intros Hb. rewrite check_win_wins, <- wins_full_line by done.
  split; congruence.
Qed.

Lemma filter_strongly_sorted {A} (R : A → A → Prop) (P : A → Prop)
    `{∀ a, Decision (P a)} (l : list A) :
  StronglySorted R l → StronglySorted R (filter P l).
Proof.
  induction 1 as [|a l Hl IH Ha]; [constructor|].
  rewrite filter_cons. destruct (decide (P a)); [|done].
  constructor; [done|].
  apply Forall_forall. intros y Hy. apply list_elem_of_filter in Hy as [_ Hy].
  by eapply Forall_forall in Ha.
Qed.

(** C6.  On a board of nine cells: when no line is fully ['x'] and none
    fully ['o'], [generate_moves] returns [empty_cells], the indices of
    [0..8] whose cell is ['e'], in ascending order; when some line is fully
    ['x'] or fully ['o'], which is when [check_win] holds for that mark, it
    returns the empty list whatever cells are empty. *)
Theorem C6_generate_moves (b : board) :
  wf b →
  (¬ full_line b "x" → ¬ full_line b "o" →
     generate_moves b = Ok (empty_cells b)) ∧
  (full_line b "x" ∨ full_line b "o" → generate_moves b = Ok []) ∧
  (∀ p, check_win b (cell p) = Ok true ↔ full_line b p) ∧
  (∀ i, i ∈ empty_cells b ↔ 0 ≤ i ≤ 8 ∧ b !! Z.to_nat i = Some "e"%char) ∧
  StronglySorted Z.lt (empty_cells b).
Proof.
  intros Hb. rewrite generate_moves_eq by done.
  split; [|split; [|split; [|split]]].
  - intros Hx Ho. rewrite <- wins_full_line in Hx, Ho.
    apply not_true_is_false in Hx, Ho. by rewrite Hx, Ho.
  - rewrite <- !wins_full_line. intros [->| ->]; [done|].
    by rewrite orb_true_r.
  - intros p. rewrite check_win_wins, <- wins_full_line by done.
    split; congruence.
  - intros i. rewrite elem_of_empty_cells, is_at_true. intuition lia.
  - apply filter_strongly_sorted. vm_compute. repeat constructor.
Qed.

Lemma C6_generate_moves_witness :
  wf two_left_board ∧ wf x_won_board ∧
  ¬ full_line two_left_board "x" ∧ ¬ full_line two_left_board "o" ∧
  generate_moves two_left_board = Ok (empty_cells two_left_board) ∧
  (full_line x_won_board "x" ∨ full_line x_won_board "o") ∧
  generate_moves x_won_board = Ok [].
Proof.
  assert (Hx : ¬ full_line two_left_board "x").
  { intros H. apply wins_full_line in H. discriminate H. }
  assert (Ho : ¬ full_line two_left_board "o").
  { intros H. apply wins_full_line in H. discriminate H. }
  assert (Hw : full_line x_won_board "x" ∨ full_line x_won_board "o").
  { left. apply wins_full_line. reflexivity. }
  split; [reflexivity|]. split; [reflexivity|].
  split; [exact Hx|]. split; [exact Ho|].
  split; [|split; [exact Hw|]].
  - apply (proj1 (C6_generate_moves two_left_board eq_refl));
      [exact Hx|exact Ho].
  - apply (proj1 (proj2 (C6_generate_moves x_won_board eq_refl))). exact Hw.
Defined.

(** ** C9 *)

Lemma game_cell_cases (a : ascii) :
  game_cell a ∨
  (Ascii.eqb a "x" = false ∧ Ascii.eqb a "o" = false ∧ Ascii.eqb a "e" = false).
Proof.
  unfold game_cell.
  destruct (Ascii.eqb_spec a "x"); [by auto|].
  destruct (Ascii.eqb_spec a "o"); [by auto|].
  destruct (Ascii.eqb_spec a "e"); by auto.
Qed.

(** The three pattern lists hold strings over ['x'], ['o'] and ['e'] only. *)
Lemma pattern_game_cells (a b c : ascii) :
  str_in_list (line3 a b c) (_3row ++ _2row ++ _1row) = true →
  game_cell a ∧ game_cell b ∧ game_cell c.
Proof.
  unfold str_in_list. rewrite existsb_exists. intros (s & Hs & Heq).
  apply String.eqb_eq in Heq. subst s. unfold game_cell, line3 in *.
  cbn in Hs.
  repeat (destruct Hs as [Hs|Hs]; [injection Hs as <- <- <-; by auto|]).
  done.
Qed.

Lemma line_score_other (a b c : ascii) :
  ¬ (game_cell a ∧ game_cell b ∧ game_cell c) → line_score (line3 a b c) = 0.
Proof.
  intros Hn. unfold line_score.
  assert (Hin : ∀ l, incl l (_3row ++ _2row ++ _1row) →
                str_in_list (line3 a b c) l = false).
  { intros l Hl. apply not_true_is_false. intros Hs. apply Hn.
    apply pattern_game_cells. unfold str_in_list in *.
    apply existsb_exists in Hs as (s & Hs & Heq). apply existsb_exists.
    exists s. split; [by apply Hl|done]. }
  rewrite !Hin; [done|..]; intros s Hs; apply in_app_iff; auto.
  - right. apply in_app_iff. auto.
  - right. apply in_app_iff. auto.
Qed.

Lemma swap_mark_other (a : ascii) :
  Ascii.eqb a "x" = false → Ascii.eqb a "o" = false → swap_mark a = a.
Proof. intros Hx Ho. unfold swap_mark. by rewrite Hx, Ho. Qed.

Lemma swap_mark_game_cell (a : ascii) : game_cell (swap_mark a) → game_cell a.
Proof.
  destruct (game_cell_cases a) as [?|(Hx & Ho & He)]; [done|].
  by rewrite swap_mark_other.
Qed.

Lemma line_score_swap (a b c : ascii) :
  line_score (line3 (swap_mark a) (swap_mark b) (swap_mark c))
    = - line_score (line3 a b c).
Proof.
  destruct (game_cell_cases a) as [Ha|Ha]; [|
    rewrite !line_score_other; [done|..]; intros (G & _ & _);
    [|apply swap_mark_game_cell in G]; destruct G as [->|[->| ->]];
    by destruct Ha as (? & ? & ?)].
  destruct (game_cell_cases b) as [Hb|Hb]; [|
    rewrite !line_score_other; [done|..]; intros (_ & G & _);
    [|apply swap_mark_game_cell in G]; destruct G as [->|[->| ->]];
    by destruct Hb as (? & ? & ?)].
  destruct (game_cell_cases c) as [Hc|Hc]; [|
    rewrite !line_score_other; [done|..]; intros (_ & _ & G);
    [|apply swap_mark_game_cell in G]; destruct G as [->|[->| ->]];
    by destruct Hc as (? & ? & ?)].
  destruct Ha as [->|[->| ->]], Hb as [->|[->| ->]], Hc as [->|[->| ->]];
    reflexivity.
Qed.

(** C9.  On a board of nine cells, replacing every ['x'] by ['o'] and every
    ['o'] by ['x'] negates the value of [heuristic]. *)
Theorem C9_heuristic_antisymmetric (b : board) :
  wf b →
  ∃ h, heuristic b = Ok h ∧ heuristic (swap_marks b) = Ok (- h).
Proof.
  intros Hb. cells b Hb. cbn [swap_marks map].
  rewrite !heuristic_cells, !line_score_swap. eexists. split; [done|].
  f_equal. lia.
Qed.

Lemma C9_heuristic_antisymmetric_witness :
  wf x_won_board ∧
  ∃ h, heuristic x_won_board = Ok h ∧
       heuristic (swap_marks x_won_board) = Ok (- h).
Proof.
  split; [reflexivity|].
  apply (C9_heuristic_antisymmetric x_won_board). reflexivity.
Defined.

(** ** C10 *)

(** C10.  On a board of nine cells, whatever characters they hold,
    [check_win] with a boolean for the player returns [False]: no cell, a
    string, equals a boolean.  The cutoff of [tic_tac_toe.py] is therefore
    [depth == 0 or not move_list], and that of [SOA_TTT.py], which does not
    test the move list, [depth == 0]. *)
Theorem C10_check_win_bool_never_fires (b : board) (d : Z) (ms : list Z)
    (isX : bool) :
  wf b →
  check_win b (PBool isX) = Ok false ∧
  TicTacToe.cutoff b d ms isX = Ok ((d =? 0) || is_nil ms) ∧
  SOA.cutoff b d isX = Ok (d =? 0).
Proof.
  intros Hb. split; [by apply check_win_bool|].
  split; [by apply ttt_cutoff_eq|by apply soa_cutoff_eq].
Qed.

Lemma C10_check_win_bool_never_fires_witness :
  wf x_won_board ∧
  check_win x_won_board (PBool true) = Ok false ∧
  TicTacToe.cutoff x_won_board 3 [5] true = Ok ((3 =? 0) || is_nil [5]) ∧
  SOA.cutoff x_won_board 3 true = Ok (3 =? 0).
Proof.
  split; [reflexivity|].
  apply (C10_check_win_bool_never_fires x_won_board 3 [5] true). reflexivity.
Defined.

(** ** C7 *)

Lemma setitem_in_range {A} (l : list A) (i : Z) (v : A) :
  - Z.of_nat (length l) ≤ i < Z.of_nat (length l) →
  ∃ l', setitem l i v = Ok l'.
Proof.
  intros Hi. unfold setitem, py_index.
  destruct (Z.ltb_spec i 0);
    [destruct (Z.ltb_spec (Z.of_nat (length l) + i) 0); [lia|];
     destruct (Z.leb_spec (Z.of_nat (length l)) (Z.of_nat (length l) + i)); [lia|]
    |destruct (Z.ltb_spec i 0); [lia|];
     destruct (Z.leb_spec (Z.of_nat (length l)) i); [lia|]];
    cbn; by eexists.
Qed.

(** The [ClientMove] branch goes through on a board of nine cells. *)
Lemma client_move_handled (player opp : ascii) (isX : bool) (st : Client.state)
    (line : string) :
  wf (Client.board st) → Client.classify line = Client.ClientMove →
  ∃ st', Client.state_check player opp isX st line
           = Ok (Client.Handled Client.ClientMove st').
Proof.
  intros Hb Hcl. unfold Client.state_check. rewrite Hcl.
  assert (∃ m b, Client.client_move isX (Client.board st) = Ok (m, b)
                 ∧ wf b ∧ -1 ≤ m ≤ 8) as (m & b & -> & Hwf & Hm).
  { unfold Client.client_move.
    destruct (Client.str_contains _ _); [exists 4, (Client.board st); by auto with lia|].
    destruct (ttt_minimax_spec (Client.board st) 100 NInf PInf isX Hb)
      as (ms & h & Hms & _ & Hres).
    destruct ((100 =? 0) || is_nil ms).
    - rewrite Hres. exists (-1), (Client.board st). cbn. by auto with lia.
    - destruct Hres as (u & m & -> & Hin). exists m, (Client.board st). cbn.
      destruct (generate_moves_elem _ _ m Hb Hms Hin) as [? _].
      by auto with lia. }
  rewrite bind_Ok.
  destruct (setitem_in_range b m player) as [b' ->]; [rewrite Hwf; lia|].
  rewrite bind_Ok. by eexists.
Qed.

(** C7, as the code has it.  The state check takes ["123456x8o"] as a
    board snapshot with ['x'] in cell 6, ['o'] in cell 8 and ['e'] elsewhere;
    takes a line containing ["Client"] as a request for a client move,
    unless the line has nine characters without ["Tie"], which the first
    rule takes; takes ["Server moved to 5"] as a server move and writes the
    opponent's mark into cell 4; and takes every line that matches none of
    the rules, ["garbage"] for one, to the client-side error, which exits
    with the state as it was.  No other line gets there. *)
Theorem C7_classification (player opp : ascii) (isX : bool)
    (st : Client.state) :
  wf (Client.board st) →
  (Client.classify "123456x8o" = Client.Board9CHR ∧
   Client.state_check player opp isX st "123456x8o" =
     Ok (Client.Handled Client.Board9CHR
           (Client.set_message_line
              (Client.set_board st
                 ["e"; "e"; "e"; "e"; "e"; "e"; "x"; "e"; "o"]%char) None))) ∧
  (∀ line,
     Client.str_contains "Client" line = true →
     ¬ (Client.py_len line = 9 ∧ Client.str_contains "Tie" line = false) →
     Client.classify line = Client.ClientMove ∧
     ∃ st', Client.state_check player opp isX st line
              = Ok (Client.Handled Client.ClientMove st')) ∧
  (Client.classify "Server moved to 5" = Client.SvrMove ∧
   Client.state_check player opp isX st "Server moved to 5" =
     Ok (Client.Handled Client.SvrMove
           (Client.set_message_line
              (Client.set_board st (<[4%nat:=opp]> (Client.board st))) None))) ∧
  (Client.classify "garbage" = Client.CLIENT_ERROR ∧
   Client.state_check player opp isX st "garbage"
     = Ok (Client.Exited Client.CLIENT_ERROR st)) ∧
  (∀ line,
     ¬ (Client.py_len line = 9 ∧ Client.str_contains "Tie" line = false) →
     Client.str_contains "Client" line = false →
     Client.str_contains "Server" line = false →
     Client.str_contains "Win" line = false →
     Client.str_contains "Tie" line = false →
     Client.str_contains "Disconnecting" line = false →
     Client.str_contains "Error" line = false →
     Client.classify line = Client.CLIENT_ERROR ∧
     Client.state_check player opp isX st line
       = Ok (Client.Exited Client.CLIENT_ERROR st)) ∧
  (∀ line,
     Client.classify line = Client.CLIENT_ERROR →
     ¬ (Client.py_len line = 9 ∧ Client.str_contains "Tie" line = false) ∧
     Client.str_contains "Client" line = false ∧
     Client.str_contains "Server" line = false ∧
     Client.str_contains "Win" line = false ∧
     Client.str_contains "Tie" line = false ∧
     Client.str_contains "Disconnecting" line = false ∧
     Client.str_contains "Error" line = false).
Proof.
  intros Hb. split; [by split|]. split; [|split; [|split; [by split|split]]].
  - intros line Hcl Hnot.
    assert (Hc : Client.classify line = Client.ClientMove).
    { unfold Client.classify. rewrite Hcl.
      destruct (Z.eqb_spec (Client.py_len line) 9) as [H9|_]; [|done].
      destruct (Client.str_contains "Tie" line) eqn:Htie; [done|].
      by destruct Hnot. }
    split; [done|]. by apply client_move_handled.
  - split; [done|]. unfold Client.state_check.
    change (Client.classify "Server moved to 5") with Client.SvrMove.
    cbn iota.
    change (getitem (list_ascii_of_string "Server moved to 5") (-1))
      with (Ok "5"%char : res ascii).
    rewrite bind_Ok. change (Client.py_int "5") with (Ok 5 : res Z).
    rewrite bind_Ok. rewrite setitem_ok by (rewrite Hb; lia). done.
  - intros line Hnot Hc Hs Hw Ht Hd He.
    assert (Hcl : Client.classify line = Client.CLIENT_ERROR).
    { unfold Client.classify. rewrite Hc, Hs, Hw, Ht, Hd, He.
      destruct (Z.eqb_spec (Client.py_len line) 9) as [H9|_]; [|done].
      by destruct Hnot. }
    split; [done|]. unfold Client.state_check. by rewrite Hcl.
  - intros line. unfold Client.classify.
    destruct (Z.eqb_spec (Client.py_len line) 9) as [H9|H9];
      destruct (Client.str_contains "Tie" line) eqn:Ht; cbn [negb andb];
      try done;
      destruct (Client.str_contains "Client" line); try done;
      destruct (Client.str_contains "Server" line); try done;
      destruct (Client.str_contains "Win" line); try done; cbn [orb];
      destruct (Client.str_contains "Disconnecting" line); try done;
      destruct (Client.str_contains "Error" line); try done.
    intros _. split; [|done]. by intros [? _].
Qed.

Lemma C7_classification_witness :
  wf (Client.board (Client.initial [])) ∧
  Client.str_contains "Client" "Client move?" = true ∧
  Client.classify "Client move?" = Client.ClientMove ∧
  Client.str_contains "Error" "no such rule" = false ∧
  Client.state_check "x" "o" true (Client.initial []) "no such rule"
    = Ok (Client.Exited Client.CLIENT_ERROR (Client.initial [])) ∧
  Client.classify "?" = Client.CLIENT_ERROR ∧
  Client.str_contains "Server" "?" = false.
Proof.
  split; [reflexivity|]. split; [reflexivity|].
  destruct (C7_classification "x" "o" true (Client.initial []) eq_refl)
    as (_ & Hclient & _ & _ & Hnone & Honly).
  split; [|split; [reflexivity|split; [|split; [reflexivity|]]]].
  - apply (Hclient "Client move?"); [reflexivity|].
    intros [H9 _]. discriminate H9.
  - apply (Hnone "no such rule"); try reflexivity.
    intros [H9 _]. discriminate H9.
  - destruct (Honly "?" eq_refl) as (_ & _ & Hserver & _). exact Hserver.
Defined.

(** A line of nine characters that contains ["Client"] is taken as a board
    snapshot, not as a request for a client move. *)
Lemma C7_counterexample :
  Client.str_contains "Client" "Client 12" = true ∧
  Client.classify "Client 12" = Client.Board9CHR ∧
  Client.classify "Client 12" ≠ Client.ClientMove.
Proof. repeat split; done. Qed.

(** ** C8 *)

Section Starved.
Variables (player opp : ascii) (isX : bool).

(** With nothing buffered and a silent socket an iteration examines no
    line: it counts and goes back to the top of the loop. *)
Lemma starved_iteration (st : Client.state) :
  Client.message_stack st = [] → Client.message st = None →
  Client.socket st = [] →
  Client.iteration player opp isX st =
    Ok (Client.Skipped
          {| Client.message := None; Client.message_stack := [];
             Client.message_line :=
               if 4 <? Client.cont_counter st
               then Some "No longer receiving messages"
               else Client.message_line st;
             Client.cont_counter := Client.cont_counter st + 1;
             Client.board := Client.board st; Client.end_ := Client.end_ st;
             Client.sent := Client.sent st; Client.socket := [] |}).
Proof.
  destruct st as [msg stack line cc b e snt sock]. cbn.
  intros -> -> ->. reflexivity.
Qed.

Lemma starved_loop (n : nat) :
  ∀ st : Client.state,
    Client.message_stack st = [] → Client.message st = None →
    Client.socket st = [] → Client.end_ st = false →
    ∃ st',
      Client.main_loop player opp isX n st
        = (replicate n None, Client.Running st') ∧
      Client.cont_counter st' = Client.cont_counter st + Z.of_nat n ∧
      Client.board st' = Client.board st ∧
      Client.sent st' = Client.sent st ∧
      (0 < Z.of_nat n → 5 < Client.cont_counter st' →
       Client.message_line st' = Some "No longer receiving messages").
Proof.
  induction n as [|n IH]; intros st Hstack Hmsg Hsock Hend.
  - exists st. cbn. repeat split; [lia|lia].
  - cbn [Client.main_loop replicate]. rewrite Hend, starved_iteration by done.
    set (st1 := Client.Build_state _ _ _ _ _ _ _ _).
    destruct (IH st1 eq_refl eq_refl eq_refl Hend)
      as (st' & Hloop & Hcc & Hb & Hsent & Hline).
    exists st'. rewrite Hloop. split; [done|].
    split; [rewrite Hcc; cbn; lia|]. split; [done|]. split; [done|].
    intros _ H5. destruct n as [|n].
    + cbn in Hloop. injection Hloop as <-. cbn in *.
      destruct (Z.ltb_spec 4 (Client.cont_counter st)); [done|lia].
    + apply Hline; lia.
Qed.
End Starved.

(** C8.  After a board line the server falls silent.  However many
    iterations the loop runs from there, each of them is skipped: no line,
    and in particular no synthetic line, reaches the state check, and the
    loop is still running.  The counter passes 4 and [message_line] is set
    to the synthetic text, but the [continue] that follows discards it. *)
Theorem C8_starved_loop_never_handles_a_line (player opp : ascii) (isX : bool)
    (n : nat) :
  ∃ st,
    Client.main_loop player opp isX (S (S n)) (Client.initial board_then_silence)
      = (Some Client.Board9CHR :: replicate (S n) None, Client.Running st) ∧
    Client.cont_counter st = Z.of_nat (S n) ∧
    ((5 ≤ n)%nat →
     Client.message_line st = Some "No longer receiving messages").
Proof.
  assert (Hstep : ∀ k (st : Client.state) o,
            Client.end_ st = false →
            Client.iteration player opp isX st = Ok o →
            Client.main_loop player opp isX (S k) st =
              match o with
              | Client.Skipped st' =>
                  let '(tr, s) := Client.main_loop player opp isX k st' in
                  (None :: tr, s)
              | Client.Handled br st' =>
                  let '(tr, s) := Client.main_loop player opp isX k st' in
                  (Some br :: tr, s)
              | Client.Exited br st' => ([Some br], Client.Exit st')
              end).
  { intros k st o He Hit. cbn [Client.main_loop]. by rewrite He, Hit. }
  erewrite Hstep; [|reflexivity|vm_compute; reflexivity]. cbn iota.
  erewrite Hstep; [|reflexivity|vm_compute; reflexivity]. cbn iota.
  set (st2 := Client.Build_state _ _ _ _ _ _ _ _).
  destruct (starved_loop player opp isX n st2 eq_refl eq_refl eq_refl eq_refl)
    as (st' & Hloop & Hcc & _ & _ & Hline).
  exists st'. rewrite Hloop. split; [done|].
  split; [rewrite Hcc; cbn; lia|].
  intros Hn. apply Hline; [lia|]. rewrite Hcc. cbn. lia.
Qed.

(** * Further properties, X1 to X23 *)

(** ** The engine *)

(** ** Bounds of the board *)

Lemma getitem_app_l {A} (l t : list A) (i : Z) :
  0 ≤ i < Z.of_nat (length l) → getitem (l ++ t) i = getitem l i.
Proof.
  intros Hi. unfold getitem.
  rewrite !py_index_ok by (rewrite ?length_app; lia). cbn.
  by rewrite lookup_app_l by lia.
Qed.

(** X1.  [heuristic] reads the cells 0 to 8 and no other: on a list of
    fewer than nine cells it raises [IndexError], and cells after the
    ninth do not change its value. *)
Theorem X1_heuristic_reads_nine_cells (b t : board) :
  ((length b < 9)%nat → heuristic b = Raise IndexError) ∧
  (length b = 9%nat → heuristic (b ++ t) = heuristic b).
Proof.
  split.
  - intros Hlen.
    do 9 (destruct b as [|? b]; [reflexivity|]).
    cbn in Hlen. lia.
  - intros Hb. unfold heuristic, tst_str_of. cbn [for_each line_index].
    rewrite !getitem_app_l by (rewrite Hb; lia). done.
Qed.

Lemma X1_heuristic_reads_nine_cells_witness :
  heuristic ["x"; "o"]%char = Raise IndexError ∧
  heuristic (x_won_board ++ ["o"; "o"; "o"]%char) = heuristic x_won_board.
Proof.
  split.
  - apply (proj1 (X1_heuristic_reads_nine_cells ["x"; "o"]%char [])).
    simpl length. lia.
  - apply (proj2 (X1_heuristic_reads_nine_cells x_won_board ["o"; "o"; "o"]%char)).
    reflexivity.
Defined.

(** ** [check_win] and the lines of [heuristic] *)

(** X2.  On a board of nine cells [check_win] returns [True] for a mark
    exactly when one of the eight lines that [heuristic] scores is filled
    with that mark, and [False] otherwise; it does not raise. *)
Theorem X2_check_win_lines (b : board) (p : ascii) :
  wf b →
  (check_win b (cell p) = Ok true ↔ full_line b p) ∧
  (check_win b (cell p) = Ok false ↔ ¬ full_line b p).
Proof.
  intros Hb. rewrite check_win_wins by done. rewrite <- wins_full_line.
  destruct (wins b p); split; split; intros H; done.
Qed.

Lemma X2_check_win_lines_witness :
  wf x_won_board ∧
  (check_win x_won_board (cell "x") = Ok true ↔ full_line x_won_board "x").
Proof.
  split; [reflexivity|].
  apply (X2_check_win_lines x_won_board "x"). reflexivity.
Defined.

(** ** Swapping the marks *)

Lemma swap_mark_involutive (c : ascii) : swap_mark (swap_mark c) = c.
Proof.
  unfold swap_mark.
  destruct (Ascii.eqb_spec c "x") as [->|?]; [done|].
  destruct (Ascii.eqb_spec c "o") as [->|?]; [done|].
  destruct (Ascii.eqb_spec c "x"); [done|].
  by destruct (Ascii.eqb_spec c "o").
Qed.

Lemma swap_mark_eqb (c p : ascii) :
  Ascii.eqb (swap_mark c) (swap_mark p) = Ascii.eqb c p.
Proof.
  destruct (Ascii.eqb_spec c p) as [->|Hne]; [apply Ascii.eqb_refl|].
  apply Ascii.eqb_neq. intros Heq. apply Hne.
  by rewrite <- (swap_mark_involutive c), Heq, swap_mark_involutive.
Qed.

Lemma swap_marks_lookup (b : board) (i : nat) :
  swap_marks b !! i = swap_mark <$> b !! i.
Proof.
  unfold swap_marks. revert i. induction b as [|c b IH]; intros [|i]; cbn; auto.
Qed.

Lemma swap_marks_length (b : board) : length (swap_marks b) = length b.
Proof. apply length_map. Qed.

Lemma is_at_swap (b : board) (i : Z) (p : ascii) :
  is_at (swap_marks b) i (swap_mark p) = is_at b i p.
Proof.
  unfold is_at. rewrite swap_marks_lookup.
  destruct (b !! Z.to_nat i); cbn; [apply swap_mark_eqb|done].
Qed.

Lemma wins_swap (b : board) (p : ascii) :
  wins (swap_marks b) (swap_mark p) = wins b p.
Proof.
  unfold wins. cbn [existsb forallb line_index]. by rewrite !is_at_swap.
Qed.

Lemma empty_cells_swap (b : board) : empty_cells (swap_marks b) = empty_cells b.
Proof.
  unfold empty_cells. apply list_filter_iff. intros i.
  by rewrite <- (is_at_swap b i "e").
Qed.

(** X3.  Replacing every ['x'] by ['o'] and every ['o'] by ['x'] turns a
    win of one mark into a win of the other and leaves the legal moves as
    they are. *)
Theorem X3_swap_marks_engine (b : board) :
  wf b →
  check_win (swap_marks b) (cell "x") = check_win b (cell "o") ∧
  check_win (swap_marks b) (cell "o") = check_win b (cell "x") ∧
  generate_moves (swap_marks b) = generate_moves b.
Proof.
  intros Hb.
  assert (Hs : wf (swap_marks b)) by (unfold wf; by rewrite swap_marks_length).
  assert (Hx : wins (swap_marks b) "x" = wins b "o") by apply (wins_swap b "o").
  assert (Ho : wins (swap_marks b) "o" = wins b "x") by apply (wins_swap b "x").
  rewrite !check_win_wins, !generate_moves_eq by done.
  rewrite Hx, Ho, empty_cells_swap.
  split; [done|]. split; [done|]. by rewrite orb_comm.
Qed.

Lemma X3_swap_marks_engine_witness :
  wf x_won_board ∧
  check_win (swap_marks x_won_board) (cell "o") = check_win x_won_board (cell "x").
Proof.
  split; [reflexivity|].
  apply (X3_swap_marks_engine x_won_board). reflexivity.
Defined.

(** ** What [heuristic] says of a finished game *)

Lemma wins_cells (c0 c1 c2 c3 c4 c5 c6 c7 c8 p : ascii) :
  wins [c0; c1; c2; c3; c4; c5; c6; c7; c8] p =
    all3 c0 c1 c2 p || (all3 c3 c4 c5 p || (all3 c6 c7 c8 p ||
   (all3 c2 c5 c8 p || (all3 c1 c4 c7 p || (all3 c0 c3 c6 p ||
   (all3 c0 c4 c8 p || (all3 c2 c4 c6 p || false))))))).
Proof. reflexivity. Qed.

Lemma all3_true (a b c p : ascii) :
  all3 a b c p = true → a = p ∧ b = p ∧ c = p.
Proof.
  unfold all3. rewrite !andb_true_iff, !Ascii.eqb_eq. tauto.
Qed.

Lemma line_score_not_ooo (a b c : ascii) :
  all3 a b c "o" = false → -10 ≤ line_score (line3 a b c).
Proof.
  intros Ho.
  destruct (game_cell_cases a) as [Ha|Ha], (game_cell_cases b) as [Hb|Hb],
    (game_cell_cases c) as [Hc|Hc];
    try (rewrite line_score_other; [done|]; unfold game_cell;
         intros (Ga & Gb & Gc);
         repeat match goal with
           | H : _ ∧ _ |- _ => destruct H
           | G : _ ∨ _ |- _ => destruct G
           end; subst; discriminate).
  destruct Ha as [->|[->| ->]], Hb as [->|[->| ->]], Hc as [->|[->| ->]];
    (discriminate Ho || (vm_compute; discriminate)).
Qed.

Lemma line_score_no_empty (a b c : ascii) :
  a ≠ "e"%char → b ≠ "e"%char → c ≠ "e"%char →
  all3 a b c "x" = false → all3 a b c "o" = false →
  line_score (line3 a b c) = 0.
Proof.
  intros Ha' Hb' Hc' Hx Ho.
  destruct (game_cell_cases a) as [Ha|Ha], (game_cell_cases b) as [Hb|Hb],
    (game_cell_cases c) as [Hc|Hc];
    try (rewrite line_score_other; [done|]; unfold game_cell;
         intros (Ga & Gb & Gc);
         repeat match goal with
           | H : _ ∧ _ |- _ => destruct H
           | G : _ ∨ _ |- _ => destruct G
           end; subst; discriminate).
  destruct Ha as [->|[->| ->]], Hb as [->|[->| ->]], Hc as [->|[->| ->]];
    done.
Qed.

(** X4.  On a board of nine cells where ['x'] has a full line and ['o']
    has none, [heuristic] is at least 30; where ['o'] has one and ['x'] has
    none, it is at most -30. *)
Theorem X4_heuristic_of_a_win (b : board) :
  wf b →
  ∃ h, heuristic b = Ok h ∧
    (full_line b "x" → ¬ full_line b "o" → 30 ≤ h) ∧
    (full_line b "o" → ¬ full_line b "x" → h ≤ -30).
Proof.
  intros Hb.
  assert (Hpos : ∀ b', wf b' → wins b' "x" = true → wins b' "o" = false →
            ∃ h, heuristic b' = Ok h ∧ 30 ≤ h).
  { clear b Hb. intros b Hb Hx Ho. cells b Hb.
    rewrite heuristic_cells. eexists. split; [done|].
    rewrite wins_cells in Hx, Ho.
    rewrite !orb_false_iff in Ho.
    destruct Ho as (O1 & O2 & O3 & O4 & O5 & O6 & O7 & O8 & _).
    apply line_score_not_ooo in O1, O2, O3, O4, O5, O6, O7, O8.
    rewrite !orb_true_iff in Hx.
    destruct Hx as [H|[H|[H|[H|[H|[H|[H|[H|H]]]]]]]]; try done;
      apply all3_true in H as (-> & -> & ->);
      change (line_score (line3 "x" "x" "x")) with 100 in *; lia. }
  destruct (heuristic_total b Hb) as [h Hh]. exists h. split; [done|].
  rewrite <- !wins_full_line. split.
  - intros Hx Ho. apply not_true_is_false in Ho.
    destruct (Hpos b Hb Hx Ho) as (h' & Hh' & ?). congruence.
  - intros Ho Hx. apply not_true_is_false in Hx.
    assert (Hs : wf (swap_marks b)) by (unfold wf; by rewrite swap_marks_length).
    destruct (Hpos (swap_marks b) Hs) as (h' & Hh' & ?).
    + exact (eq_trans (wins_swap b "o") Ho).
    + exact (eq_trans (wins_swap b "x") Hx).
    + revert Hh'. cells b Hb. cbn [swap_marks map].
      rewrite !heuristic_cells in *. rewrite !line_score_swap.
      intros [= <-]. injection Hh as <-. lia.
Qed.

Lemma X4_heuristic_of_a_win_witness :
  wf x_won_board ∧
  ∃ h, heuristic x_won_board = Ok h ∧
    (full_line x_won_board "x" → ¬ full_line x_won_board "o" → 30 ≤ h) ∧
    (full_line x_won_board "o" → ¬ full_line x_won_board "x" → h ≤ -30).
Proof.
  split; [reflexivity|].
  apply (X4_heuristic_of_a_win x_won_board). reflexivity.
Defined.

(** X5.  On a board of nine cells without an empty cell and without a
    full line of either mark, [heuristic] is 0. *)
Theorem X5_heuristic_of_a_draw (b : board) :
  wf b → "e"%char ∉ b → ¬ full_line b "x" → ¬ full_line b "o" →
  heuristic b = Ok 0.
Proof.
  intros Hb He Hx Ho. rewrite <- wins_full_line in Hx, Ho.
  apply not_true_is_false in Hx, Ho. cells b Hb.
  rewrite heuristic_cells. rewrite wins_cells in Hx, Ho.
  rewrite !orb_false_iff in Hx, Ho.
  destruct Hx as (X1 & X2 & X3 & X4 & X5 & X6 & X7 & X8 & _).
  destruct Ho as (O1 & O2 & O3 & O4 & O5 & O6 & O7 & O8 & _).
  rewrite !not_elem_of_cons in He.
  destruct He as (? & ? & ? & ? & ? & ? & ? & ? & ? & _).
  rewrite !line_score_no_empty by (done || congruence). done.
Qed.

Lemma X5_heuristic_of_a_draw_witness :
  wf drawn_board ∧ heuristic drawn_board = Ok 0.
Proof.
  split; [reflexivity|].
  apply (X5_heuristic_of_a_draw drawn_board); [reflexivity|..].
  - intros H. vm_compute in H.
    repeat (apply elem_of_cons in H as [H|H]; [discriminate H|]).
    by apply elem_of_nil in H.
  - intros H. apply wins_full_line in H. discriminate H.
  - intros H. apply wins_full_line in H. discriminate H.
Defined.

(** ** How many moves [generate_moves] returns *)

Lemma empty_cells_count (b : board) (n : nat) :
  (n ≤ length b)%nat →
  length (filter (λ i, is_at b i "e" = true) (seqZ 0 (Z.of_nat n)))
    = count_occ Ascii.ascii_dec (take n b) "e"%char.
Proof.
  induction n as [|n IH]; intros Hn; [done|].
  destruct (lookup_lt_is_Some_2 b n) as [c Hc]; [lia|].
  rewrite seqZ_S, filter_app, length_app, IH by lia.
  rewrite (take_S_r _ _ c), count_occ_app by done. f_equal.
  rewrite (filter_singleton _ _ []). unfold is_at.
  rewrite Z.add_0_l, Nat2Z.id, Hc. cbn [count_occ].
  destruct (Ascii.eqb_spec c "e") as [->|Hne].
  - rewrite decide_True by done. by destruct (Ascii.ascii_dec "e" "e").
  - rewrite decide_False by done. by destruct (Ascii.ascii_dec c "e").
Qed.

Lemma empty_cells_length (b : board) : wf b → length (empty_cells b) = empties b.
Proof.
  intros Hb. unfold empty_cells, empties, py_range.
  change (9 - 0) with (Z.of_nat 9).
  rewrite empty_cells_count by (rewrite Hb; lia).
  by rewrite take_ge by (rewrite Hb; lia).
Qed.

Lemma empties_zero (b : board) : empties b = 0%nat ↔ "e"%char ∉ b.
Proof.
  unfold empties. rewrite <- count_occ_not_In, list_elem_of_In. done.
Qed.

(** X6.  On a board of nine cells [generate_moves] returns a list without
    repetition; the list is empty exactly when ['x'] or ['o'] has a full
    line or no cell is ['e']; and when neither has a full line it has as
    many entries as the board has ['e'] cells. *)
Theorem X6_generate_moves_count (b : board) :
  wf b →
  ∃ ms, generate_moves b = Ok ms ∧ NoDup ms ∧
    (ms = [] ↔ full_line b "x" ∨ full_line b "o" ∨ "e"%char ∉ b) ∧
    (¬ full_line b "x" → ¬ full_line b "o" → length ms = empties b).
Proof.
  intros Hb. rewrite generate_moves_eq by done. eexists. split; [done|].
  rewrite <- !wins_full_line, <- empties_zero, <- (empty_cells_length b Hb).
  split; [|split].
  - destruct (wins b "x" || wins b "o");
      [apply NoDup_nil_2|apply NoDup_filter, NoDup_seqZ].
  - destruct (wins b "x"), (wins b "o"); cbn [orb];
      try (split; [by auto|done]).
    split.
    + intros ->. by auto.
    + intros [?|[?|H]]; [done..|]. by apply nil_length_inv.
  - intros Hx Ho. apply not_true_is_false in Hx, Ho. by rewrite Hx, Ho.
Qed.

Lemma X6_generate_moves_count_witness :
  wf two_left_board ∧
  ∃ ms, generate_moves two_left_board = Ok ms ∧ NoDup ms.
Proof.
  split; [reflexivity|].
  destruct (X6_generate_moves_count two_left_board eq_refl)
    as (ms & Hms & Hnd & _).
  exists ms. split; [exact Hms|exact Hnd].
Defined.

(** * Further properties of the search of [tic_tac_toe.py] *)

(** ** The move returned is a legal move *)

(** X7.  When [generate_moves] has candidates and [depth] is not 0, the
    move [minimax] returns is the index of an ['e'] cell, so that the
    caller's [board[move] = mark] fills an empty cell: it changes that cell
    alone and leaves one empty cell fewer. *)
Theorem X7_minimax_move_is_legal (b : board) (d : Z) (α β : ext) (x : bool)
    (ms : list Z) (p : ascii) :
  wf b → generate_moves b = Ok ms → ms ≠ [] → d ≠ 0 → p ≠ "e"%char →
  ∃ u m, TicTacToe.minimax b d α β x = Ok (Fin u, m, b) ∧
    b !! Z.to_nat m = Some "e"%char ∧
    setitem b m p = Ok (<[Z.to_nat m:=p]> b) ∧
    (∀ i, i ≠ Z.to_nat m → <[Z.to_nat m:=p]> b !! i = b !! i) ∧
    S (empties (<[Z.to_nat m:=p]> b)) = empties b.
Proof.
  intros Hb Hms Hne Hd Hp.
  destruct (ttt_minimax_spec b d α β x Hb) as (ms' & h' & Hms' & _ & Hres).
  rewrite Hms in Hms'. injection Hms' as <-.
  destruct (Z.eqb_spec d 0) as [?|_]; [done|].
  destruct ms as [|m0 ms]; [done|]. cbn [orb is_nil] in Hres.
  destruct Hres as (u & m & Hres & Hm). exists u, m.
  destruct (generate_moves_elem b _ m Hb Hms Hm) as [Hr He].
  split; [done|]. split; [done|]. split; [|split].
  - apply setitem_ok. rewrite Hb. lia.
  - intros i Hi. by apply list_lookup_insert_ne.
  - by apply empties_insert.
Qed.

Lemma X7_minimax_move_is_legal_witness :
  wf two_left_board ∧
  ∃ u m, TicTacToe.minimax two_left_board 100 NInf PInf true
           = Ok (Fin u, m, two_left_board) ∧
         two_left_board !! Z.to_nat m = Some "e"%char.
Proof.
  split; [reflexivity|].
  destruct (X7_minimax_move_is_legal two_left_board 100 NInf PInf true
              [7; 8] "x" eq_refl eq_refl)
    as (u & m & H1 & H2 & _); [discriminate..|].
  exists u, m. split; [exact H1|exact H2].
Defined.

(** ** A depth the game cannot use up *)

Section DepthLoop.
Variable rec : board → Z → ext → ext → bool → res search.
Variables (d d' : Z) (x : bool) (b : board).

Lemma for_moves_depth (ms : list Z) :
  (∀ m, m ∈ ms →
     0 ≤ m < Z.of_nat (length b) ∧ b !! Z.to_nat m = Some "e"%char) →
  (∀ m α β, m ∈ ms → ∃ tu pos,
     rec (<[Z.to_nat m:=mark x]> b) (d - 1) α β (negb x)
       = Ok (tu, pos, <[Z.to_nat m:=mark x]> b) ∧
     rec (<[Z.to_nat m:=mark x]> b) (d' - 1) α β (negb x)
       = Ok (tu, pos, <[Z.to_nat m:=mark x]> b)) →
  ∀ u bm α β,
    for_moves rec d x (mark x) ms b u bm α β
    = for_moves rec d' x (mark x) ms b u bm α β.
Proof.
  induction ms as [|m rest IH]; intros Hms Hrec u bm α β; [done|].
  destruct (Hms m) as [Hm He]; [by left|].
  destruct (Hrec m α β) as (tu & pos & H1 & H2); [by left|].
  rewrite (for_moves_step rec d x (mark x) m rest b u bm α β tu pos) by done.
  rewrite (for_moves_step rec d' x (mark x) m rest b u bm α β tu pos) by done.
  cbn zeta. destruct (ext_geb _ _); [done|]. apply IH.
  - intros m' Hm'. apply Hms. by right.
  - intros m' α' β' Hm'. apply Hrec. by right.
Qed.
End DepthLoop.

Lemma minimax_rec_depth (fuel : nat) :
  ∀ (b : board) (d d' : Z) (α β : ext) (x : bool),
    wf b → (empties b < fuel)%nat → beyond d b → beyond d' b →
    TicTacToe.minimax_rec fuel b d α β x
    = TicTacToe.minimax_rec fuel b d' α β x.
Proof.
  induction fuel as [|fuel IH]; intros b d d' α β x Hb Hfuel Hd Hd'; [lia|].
  pose proof (generate_moves_eq b Hb) as Hg.
  set (ms := if wins b "x" || wins b "o" then [] else empty_cells b) in Hg.
  rewrite !(ttt_minimax_rec_unfold fuel b _ α β x ms) by done.
  assert (d ≠ 0 ∧ d' ≠ 0) as [H0 H0'] by (unfold beyond in *; lia).
  destruct (Z.eqb_spec d 0) as [?|_]; [done|].
  destruct (Z.eqb_spec d' 0) as [?|_]; [done|].
  cbn [orb]. destruct (is_nil ms); [done|].
  apply for_moves_depth.
  - intros m Hm. destruct (generate_moves_elem b ms m) as [? ?]; try done.
    rewrite Hb. split; [lia|done].
  - intros m α' β' Hm.
    destruct (generate_moves_elem b ms m) as [? He]; try done.
    pose proof (empties_insert b (Z.to_nat m) (mark x) He (mark_not_e x)) as Hemp.
    assert (Hwf : wf (<[Z.to_nat m:=mark x]> b)) by by apply wf_insert.
    destruct (ttt_minimax_rec_spec fuel (<[Z.to_nat m:=mark x]> b) (d - 1)
                α' β' (negb x) Hwf) as (ms' & h' & _ & _ & Hres); [lia|].
    assert (∃ tu pos, TicTacToe.minimax_rec fuel (<[Z.to_nat m:=mark x]> b)
                        (d - 1) α' β' (negb x)
                      = Ok (tu, pos, <[Z.to_nat m:=mark x]> b))
      as (tu & pos & Hcall).
    { destruct ((d - 1 =? 0) || is_nil ms'); [by eauto|].
      destruct Hres as (u1 & m1 & -> & _). by eauto. }
    exists tu, pos. split; [done|]. rewrite <- Hcall. symmetry.
    apply IH; [done|lia|unfold beyond in *; lia..].
Qed.

(** X8.  A depth that is negative, or larger than the number of ['e']
    cells, is never counted down to 0: all such depths give the same
    result, so the 100 the callers pass searches every game to its end. *)
Theorem X8_minimax_depth_saturates (b : board) (d d' : Z) (α β : ext)
    (x : bool) :
  wf b →
  d < 0 ∨ Z.of_nat (empties b) < d →
  d' < 0 ∨ Z.of_nat (empties b) < d' →
  TicTacToe.minimax b d α β x = TicTacToe.minimax b d' α β x.
Proof.
  intros Hb Hd Hd'. apply minimax_rec_depth; [done|lia|done..].
Qed.

Lemma X8_minimax_depth_saturates_witness :
  wf two_left_board ∧
  TicTacToe.minimax two_left_board 100 NInf PInf true
  = TicTacToe.minimax two_left_board (-1) NInf PInf true.
Proof.
  split; [reflexivity|].
  apply (X8_minimax_depth_saturates two_left_board 100 (-1) NInf PInf true).
  - reflexivity.
  - right. vm_compute. reflexivity.
  - left. lia.
Defined.

(** ** The two sides are treated alike *)

Lemma ext_ltb_neg (a b : ext) : ext_ltb (neg b) (neg a) = ext_ltb a b.
Proof.
  destruct a, b; cbn; try done.
  destruct (Z.ltb_spec z z0), (Z.ltb_spec (- z0) (- z)); (done || lia).
Qed.

Lemma neg_involutive (a : ext) : neg (neg a) = a.
Proof. destruct a; cbn; [done| |done]. by rewrite Z.opp_involutive. Qed.

Lemma improves_neg (x : bool) (t u : ext) :
  improves (negb x) (neg t) (neg u) = improves x t u.
Proof. unfold improves, ext_gtb. destruct x; cbn [negb]; apply ext_ltb_neg. Qed.

Lemma py_max_neg (a b : ext) : py_min (neg a) (neg b) = neg (py_max a b).
Proof.
  unfold py_min, py_max, ext_gtb. rewrite ext_ltb_neg.
  by destruct (ext_ltb a b).
Qed.

Lemma py_min_neg (a b : ext) : py_max (neg a) (neg b) = neg (py_min a b).
Proof.
  unfold py_min, py_max, ext_gtb. rewrite ext_ltb_neg.
  by destruct (ext_ltb b a).
Qed.

Lemma ext_geb_neg (a b : ext) : ext_geb (neg b) (neg a) = ext_geb a b.
Proof. unfold ext_geb. by rewrite ext_ltb_neg. Qed.

Lemma swap_marks_insert (b : board) (i : nat) (c : ascii) :
  swap_marks (<[i:=c]> b) = <[i:=swap_mark c]> (swap_marks b).
Proof.
  unfold swap_marks. revert i.
  induction b as [|a b IH]; intros [|i]; cbn; [done..|]. by rewrite IH.
Qed.

Lemma swap_marks_wf (b : board) : wf b → wf (swap_marks b).
Proof. unfold wf. by rewrite swap_marks_length. Qed.

Lemma generate_moves_swap (b : board) :
  wf b → generate_moves (swap_marks b) = generate_moves b.
Proof.
  intros Hb. rewrite !generate_moves_eq by (done || by apply swap_marks_wf).
  rewrite (wins_swap b "o" : wins (swap_marks b) "x" = _).
  rewrite (wins_swap b "x" : wins (swap_marks b) "o" = _).
  by rewrite empty_cells_swap, orb_comm.
Qed.

Lemma heuristic_swap (b : board) (h : Z) :
  wf b → heuristic b = Ok h → heuristic (swap_marks b) = Ok (- h).
Proof.
  intros Hb. cells b Hb. cbn [swap_marks map].
  rewrite !heuristic_cells, !line_score_swap. intros [= <-]. f_equal. lia.
Qed.

Lemma swap_mark_mark (x : bool) : swap_mark (mark x) = mark (negb x).
Proof. by destruct x. Qed.

Lemma neg_worst (x : bool) : neg (worst x) = worst (negb x).
Proof. by destruct x. Qed.

Section MirrorLoop.
Variable rec : board → Z → ext → ext → bool → res search.
Variables (d : Z) (x : bool) (b : board).

Lemma for_moves_mirror (ms : list Z) :
  (∀ m, m ∈ ms →
     0 ≤ m < Z.of_nat (length b) ∧ b !! Z.to_nat m = Some "e"%char) →
  (∀ m α β, m ∈ ms → ∃ tu pos,
     rec (<[Z.to_nat m:=mark x]> b) (d - 1) α β (negb x)
       = Ok (tu, pos, <[Z.to_nat m:=mark x]> b) ∧
     rec (swap_marks (<[Z.to_nat m:=mark x]> b)) (d - 1) (neg β) (neg α)
         (negb (negb x))
       = Ok (neg tu, pos, swap_marks (<[Z.to_nat m:=mark x]> b))) →
  ∀ u bm α β, ∃ u' bm',
    for_moves rec d x (mark x) ms b u bm α β = Ok (u', bm', b) ∧
    for_moves rec d (negb x) (mark (negb x)) ms (swap_marks b)
      (neg u) bm (neg β) (neg α) = Ok (neg u', bm', swap_marks b).
Proof.
  induction ms as [|m rest IH]; intros Hms Hrec u bm α β.
  { exists u, bm. by split. }
  destruct (Hms m) as [Hm He]; [by left|].
  destruct (Hrec m α β) as (tu & pos & H1 & H2); [by left|].
  rewrite (for_moves_step rec d x (mark x) m rest b u bm α β tu pos) by done.
  rewrite (for_moves_step rec d (negb x) (mark (negb x)) m rest (swap_marks b)
             (neg u) bm (neg β) (neg α) (neg tu) pos).
  2: { by rewrite swap_marks_length. }
  2: { by rewrite swap_marks_lookup, He. }
  2: { by rewrite <- swap_mark_mark, <- swap_marks_insert. }
  cbn zeta. rewrite improves_neg.
  set (u1 := if improves x tu u then tu else u).
  replace (if improves x tu u then neg tu else neg u) with (neg u1)
    by (subst u1; by destruct (improves x tu u)).
  set (bm1 := if improves x tu u then m else bm).
  set (α1 := if x then py_max u1 α else α).
  set (β1 := if x then β else py_min u1 β).
  replace (if negb x then py_max (neg u1) (neg β) else neg β) with (neg β1)
    by (subst β1; destruct x; cbn [negb]; by rewrite ?py_min_neg).
  replace (if negb x then neg α else py_min (neg u1) (neg α)) with (neg α1)
    by (subst α1; destruct x; cbn [negb]; by rewrite ?py_max_neg).
  rewrite ext_geb_neg. destruct (ext_geb α1 β1).
  { exists u1, bm1. by split. }
  apply IH.
  - intros m' Hm'. apply Hms. by right.
  - intros m' α' β' Hm'. apply Hrec. by right.
Qed.
End MirrorLoop.

Lemma minimax_rec_mirror (fuel : nat) :
  ∀ (b : board) (d : Z) (α β : ext) (x : bool),
    wf b → (empties b < fuel)%nat →
    ∃ u m,
      TicTacToe.minimax_rec fuel b d α β x = Ok (u, m, b) ∧
      TicTacToe.minimax_rec fuel (swap_marks b) d (neg β) (neg α) (negb x)
        = Ok (neg u, m, swap_marks b).
Proof.
  induction fuel as [|fuel IH]; intros b d α β x Hb Hfuel; [lia|].
  destruct (heuristic_total b Hb) as [h Hh].
  pose proof (generate_moves_eq b Hb) as Hg.
  set (ms := if wins b "x" || wins b "o" then [] else empty_cells b) in Hg.
  rewrite (ttt_minimax_rec_unfold fuel b d α β x ms) by done.
  rewrite (ttt_minimax_rec_unfold fuel (swap_marks b) d _ _ (negb x) ms)
    by (by apply swap_marks_wf || by rewrite generate_moves_swap).
  destruct ((d =? 0) || is_nil ms).
  { rewrite Hh, (heuristic_swap b h) by done. by exists (Fin h), (-1). }
  rewrite <- neg_worst. apply for_moves_mirror.
  - intros m Hm. destruct (generate_moves_elem b ms m) as [? ?]; try done.
    rewrite Hb. split; [lia|done].
  - intros m α' β' Hm.
    destruct (generate_moves_elem b ms m) as [? He]; try done.
    pose proof (empties_insert b (Z.to_nat m) (mark x) He (mark_not_e x)).
    destruct (IH (<[Z.to_nat m:=mark x]> b) (d - 1) α' β' (negb x))
      as (tu & pos & Hcall & Hmir); [by apply wf_insert|lia|]. eauto.
Qed.

(** X9.  Searching the board with the marks exchanged, for the other side
    and with the window mirrored, returns the same move and the opposite
    utility. *)
Theorem X9_minimax_mirror (b : board) (d : Z) (α β : ext) (x : bool) :
  wf b →
  ∃ u m,
    TicTacToe.minimax b d α β x = Ok (u, m, b) ∧
    TicTacToe.minimax (swap_marks b) d (neg β) (neg α) (negb x)
      = Ok (neg u, m, swap_marks b).
Proof.
  intros Hb. unfold TicTacToe.minimax.
  assert (He : empties (swap_marks b) = empties b).
  { unfold empties, swap_marks. clear Hb. induction b as [|c b IH]; [done|].
    cbn [map count_occ]. rewrite IH.
    destruct (Ascii.ascii_dec c "e") as [->|Hc]; [done|].
    destruct (Ascii.ascii_dec (swap_mark c) "e") as [Hs|?]; [|done].
    destruct Hc. by rewrite <- (swap_mark_involutive c), Hs. }
  rewrite He. apply minimax_rec_mirror; [done|lia].
Qed.

Lemma X9_minimax_mirror_witness :
  wf two_left_board ∧
  ∃ u m,
    TicTacToe.minimax two_left_board 100 NInf PInf true
      = Ok (u, m, two_left_board) ∧
    TicTacToe.minimax (swap_marks two_left_board) 100 (neg PInf) (neg NInf)
        (negb true)
      = Ok (neg u, m, swap_marks two_left_board).
Proof.
  split; [reflexivity|].
  apply (X9_minimax_mirror two_left_board 100 NInf PInf true). reflexivity.
Defined.

(** * The game loop of [tic_tac_toe.py] *)

Lemma game_loop_unfold (s : Game.session) (answers : list (option Z))
    (b : board) :
  Game.game_loop s answers b =
    on ← Game.goes_on s b;
    if on : bool then
      match answers with
      | [] => Ok (Game.Waiting, b)
      | None :: _ => Ok (Game.InvalidInput, b)
      | Some n :: rest =>
          r ← Game.turn s b n;
          match r with
          | Some b' => Game.game_loop s rest b'
          | None => Game.game_loop s rest b
          end
      end
    else v ← Game.verdict s b; Ok (v, b).
Proof. by destruct answers. Qed.

(** ** What the move prompt does with an answer *)

Lemma getitem_out_of_range {A} (l : list A) (i : Z) :
  Z.of_nat (length l) ≤ i ∨ i < - Z.of_nat (length l) →
  getitem l i = Raise IndexError.
Proof.
  intros Hi. unfold getitem, py_index.
  destruct (Z.ltb_spec i 0).
  - destruct (Z.ltb_spec (Z.of_nat (length l) + i) 0); [done|lia].
  - destruct (Z.ltb_spec i 0); [lia|].
    destruct (Z.leb_spec (Z.of_nat (length l)) i); [done|lia].
Qed.

Lemma getitem_total {A} (l : list A) (i : Z) :
  - Z.of_nat (length l) ≤ i < Z.of_nat (length l) → ∃ a, getitem l i = Ok a.
Proof.
  intros Hi. unfold getitem, py_index.
  destruct (Z.ltb_spec i 0).
  - destruct (Z.ltb_spec (Z.of_nat (length l) + i) 0); [lia|].
    destruct (Z.leb_spec (Z.of_nat (length l)) (Z.of_nat (length l) + i)); [lia|].
    cbn. destruct (lookup_lt_is_Some_2 l (Z.to_nat (Z.of_nat (length l) + i)))
      as [a ->]; [lia|]. by eexists.
  - destruct (Z.ltb_spec i 0); [lia|].
    destruct (Z.leb_spec (Z.of_nat (length l)) i); [lia|].
    cbn. destruct (lookup_lt_is_Some_2 l (Z.to_nat i)) as [a ->]; [lia|].
    by eexists.
Qed.

Lemma turn_rejects (s : Game.session) (b : board) (n : Z) :
  wf b →
  (10 ≤ n ∨ n ≤ -9 → Game.turn s b n = Raise IndexError) ∧
  (-8 ≤ n ≤ 0 → Game.turn s b n = Ok None) ∧
  (1 ≤ n ≤ 9 → b !! Z.to_nat (n - 1) ≠ Some "e"%char →
   Game.turn s b n = Ok None).
Proof.
  intros Hb. unfold Game.turn. cbn zeta. split; [|split].
  - intros Hn. unfold cell_eq.
    rewrite getitem_out_of_range by (rewrite Hb; lia). done.
  - intros Hn. unfold cell_eq.
    destruct (getitem_total b (n - 1)) as [c ->]; [rewrite Hb; lia|].
    rewrite bind_Ok, and_Ok.
    destruct (Z.leb_spec 0 (n - 1)); [lia|]. cbn [andb].
    by rewrite andb_false_r.
  - intros Hn He. change (PStr "e") with (cell "e").
    rewrite cell_eq_is_at by (rewrite Hb; lia). rewrite and_Ok.
    unfold is_at. destruct (b !! Z.to_nat (n - 1)) as [c|]; [|done].
    destruct (Ascii.eqb_spec c "e") as [->|?]; [done|done].
Qed.

(** X10.  While the game goes on, on a board of nine cells: an answer of
    10 or more, or of -9 or less, ends the program with an uncaught
    [IndexError]; an answer from -8 to 0, or the number of a cell that is
    not ['e'], is refused and the next answer is read with the board
    unchanged; an answer that is not an integer ends the program with
    ["invalid input"]. *)
Theorem X10_move_prompt_answers (s : Game.session) (b : board) (n : Z)
    (rest : list (option Z)) :
  wf b → Game.goes_on s b = Ok true →
  (10 ≤ n ∨ n ≤ -9 →
   Game.game_loop s (Some n :: rest) b = Raise IndexError) ∧
  (-8 ≤ n ≤ 0 →
   Game.game_loop s (Some n :: rest) b = Game.game_loop s rest b) ∧
  (1 ≤ n ≤ 9 → b !! Z.to_nat (n - 1) ≠ Some "e"%char →
   Game.game_loop s (Some n :: rest) b = Game.game_loop s rest b) ∧
  Game.game_loop s (None :: rest) b = Ok (Game.InvalidInput, b).
Proof.
  intros Hb Hon. destruct (turn_rejects s b n Hb) as (H1 & H2 & H3).
  rewrite !(game_loop_unfold s (_ :: rest) b), Hon, !bind_Ok.
  split; [|split; [|split]].
  - intros Hn. by rewrite H1.
  - intros Hn. by rewrite H2.
  - intros Hn He. by rewrite H3.
  - done.
Qed.

Lemma X10_move_prompt_answers_witness :
  wf empty_board ∧
  Game.game_loop plays_x [Some 10; Some 5] empty_board = Raise IndexError ∧
  Game.game_loop plays_x [Some 0] empty_board
    = Game.game_loop plays_x [] empty_board.
Proof.
  split; [reflexivity|].
  destruct (X10_move_prompt_answers plays_x empty_board 10 [Some 5]
              eq_refl eq_refl) as (H1 & _).
  destruct (X10_move_prompt_answers plays_x empty_board 0 []
              eq_refl eq_refl) as (_ & H2 & _).
  split; [apply H1; left; lia|apply H2; lia].
Defined.

(** ** Every game the program can play *)

Lemma turn_accepts_range (s : Game.session) (b b' : board) (n : Z) :
  Game.turn s b n = Ok (Some b') → n ∈ py_range 1 10.
Proof.
  unfold Game.turn. cbn zeta. intros H.
  apply bind_Ok_inv in H as (valid & Hv & H).
  destruct valid; [|done]. unfold and_ in Hv.
  apply bind_Ok_inv in Hv as (e & _ & Hv). destruct e; [|done].
  injection Hv as Hv. apply andb_true_iff in Hv as [H0 H9].
  unfold py_range. apply elem_of_seqZ. lia.
Qed.

(** A turn on a board of nine cells succeeds for an answer from -8 to 9
    and leaves a board of nine cells. *)
Lemma turn_total (s : Game.session) (b : board) (n : Z) :
  wf b → -8 ≤ n ≤ 9 →
  ∃ r, Game.turn s b n = Ok r ∧ ∀ b', r = Some b' → wf b'.
Proof.
  intros Hb Hn. destruct (turn_rejects s b n Hb) as (_ & H2 & _).
  destruct (Z.le_gt_cases n 0) as [?|Hpos].
  { exists None. split; [apply H2; lia|done]. }
  unfold Game.turn. cbn zeta. change (PStr "e") with (cell "e").
  rewrite cell_eq_is_at, and_Ok, bind_Ok by (rewrite Hb; lia).
  destruct (is_at b (n - 1) "e" && _); [|by exists None].
  rewrite setitem_ok, bind_Ok by (rewrite Hb; lia).
  set (b1 := <[Z.to_nat (n - 1):=Game.player s]> b).
  assert (Hb1 : wf b1) by by apply wf_insert.
  destruct (Game.has_empty b1).
  2: { exists (Some b1). split; [done|]. by intros ? [= <-]. }
  destruct (ttt_minimax_spec b1 100 NInf PInf (Game.isX s) Hb1)
    as (ms & h & Hms & _ & Hres).
  assert (∃ u m, TicTacToe.minimax b1 100 NInf PInf (Game.isX s)
                 = Ok (u, m, b1) ∧ -1 ≤ m ≤ 8) as (u & m & -> & Hm).
  { destruct ((100 =? 0) || is_nil ms).
    - rewrite Hres. exists (Fin h), (-1). split; [done|lia].
    - destruct Hres as (u & m & -> & Hin).
      destruct (generate_moves_elem _ _ m Hb1 Hms Hin) as [? _].
      exists (Fin u), m. split; [done|lia]. }
  rewrite bind_Ok.
  destruct (setitem_in_range b1 m (Game.opp s)) as [b2 Hb2];
    [rewrite Hb1; lia|].
  rewrite Hb2, bind_Ok. exists (Some b2). split; [done|].
  intros ? [= <-]. unfold setitem in Hb2.
  apply bind_Ok_inv in Hb2 as (j & _ & [= <-]). by apply wf_insert.
Qed.

Lemma explore_reachable (s : Game.session) (b0 b : board) :
  reachable s b0 b →
  ∀ k, explore s k b0 = true → ∃ k', explore s k' b = true.
Proof.
  induction 1 as [|b n b' Hreach IH Hon Hturn]; intros k Hk; [by eauto|].
  destruct (IH k Hk) as [k' Hk']. destruct k' as [|k'];
    cbn [explore] in Hk'; rewrite Hon in Hk'; [done|].
  rewrite forallb_forall in Hk'.
  specialize (Hk' n). rewrite Hturn in Hk'.
  apply andb_true_iff in Hk' as [_ ?]; [by eauto|].
  apply list_elem_of_In. by eapply turn_accepts_range.
Qed.

Lemma explore_turn_ok (s : Game.session) (k : nat) (b0 b b' : board) (n : Z) :
  explore s k b0 = true → reachable s b0 b →
  Game.goes_on s b = Ok true → Game.turn s b n = Ok (Some b') →
  turn_ok s b n b' = true.
Proof.
  intros Hk Hreach Hon Hturn.
  destruct (explore_reachable s b0 b Hreach k Hk) as [k' Hk'].
  destruct k' as [|k']; cbn [explore] in Hk'; rewrite Hon in Hk'; [done|].
  rewrite forallb_forall in Hk'.
  specialize (Hk' n). rewrite Hturn in Hk'.
  apply andb_true_iff in Hk' as [? _]; [done|].
  apply list_elem_of_In. by eapply turn_accepts_range.
Qed.

Lemma explore_plays_x : explore plays_x 5 empty_board = true.
Proof. vm_cast_no_check (eq_refl true). Qed.

Lemma explore_plays_o : explore plays_o 4 centre_board = true.
Proof. vm_cast_no_check (eq_refl true). Qed.

(** The loop ends on a board it can reach, and a final message is the
    verdict on that board. *)
Lemma game_loop_reachable (s : Game.session) (b0 : board)
    (answers : list (option Z)) :
  ∀ b e bf,
    reachable s b0 b → Game.game_loop s answers b = Ok (e, bf) →
    reachable s b0 bf ∧
    (e = Game.YouWon ∨ e = Game.YouFailed ∨ e = Game.YouTied →
     Game.goes_on s bf = Ok false ∧ Game.verdict s bf = Ok e).
Proof.
  induction answers as [|a rest IH]; intros b e bf Hreach;
    rewrite game_loop_unfold; intros H;
    apply bind_Ok_inv in H as (on & Hon & H); destruct on.
  - injection H as <- <-. split; [done|]. by intros [?|[?|?]].
  - apply bind_Ok_inv in H as (v & Hv & [= <- <-]). by split.
  - destruct a as [n|]; [|injection H as <- <-; split; [done|by intros [?|[?|?]]]].
    apply bind_Ok_inv in H as (r & Hr & H). destruct r as [b'|].
    + apply (IH b'); [|done]. by eapply reach_turn.
    + by apply (IH b).
  - apply bind_Ok_inv in H as (v & Hv & [= <- <-]). by split.
Qed.

Lemma choose_side_cases (sides : list string) :
  Game.choose_side sides = inl (plays_x, empty_board) ∨
  Game.choose_side sides = inl (plays_o, centre_board) ∨
  Game.choose_side sides = inr Game.NoSide ∨
  Game.choose_side sides = inr Game.Waiting.
Proof.
  induction sides as [|a rest IH]; [by auto|]. cbn [Game.choose_side].
  destruct (negb _); [done|].
  destruct (String.eqb _ "x"); [by auto|].
  destruct (String.eqb _ "o"); by auto.
Qed.

Lemma start_explored (sides : list string) (s : Game.session) (b0 : board) :
  Game.choose_side sides = inl (s, b0) →
  ∃ k, explore s k b0 = true ∧ wf b0 ∧
       Game.verdict s b0 ≠ Ok Game.YouWon.
Proof.
  intros Hs.
  destruct (choose_side_cases sides) as [H|[H|[H|H]]]; rewrite H in Hs;
    try done; injection Hs as <- <-.
  - exists 5%nat. split; [apply explore_plays_x|]. by split.
  - exists 4%nat. split; [apply explore_plays_o|]. by split.
Qed.

(** X11.  Whatever is answered to the two prompts, [main] does not end
    with ["You won! Congrats!"]: the human player never wins. *)
Theorem X11_player_never_wins (sides : list string)
    (answers : list (option Z)) (bf : board) :
  Game.main sides answers ≠ Ok (Game.YouWon, bf).
Proof.
  unfold Game.main. destruct (Game.choose_side sides) as [[s b0]|e] eqn:Hs.
  2: { intros [= -> _].
       destruct (choose_side_cases sides) as [H|[H|[H|H]]];
         rewrite H in Hs; done. }
  destruct (start_explored sides s b0 Hs) as (k & Hk & Hb0 & Hv0).
  intros Hloop.
  destruct (game_loop_reachable s b0 answers b0 _ _ (reach_start s b0) Hloop)
    as [Hreach Hend].
  destruct Hend as [_ Hv]; [by left|].
  inversion Hreach as [Heq|b n b' Hr Hon Hturn Heq]; subst.
  - done.
  - pose proof (explore_turn_ok s k b0 b bf n Hk Hr Hon Hturn) as Hok.
    unfold turn_ok in Hok. rewrite !andb_true_iff in Hok.
    destruct Hok as (((((Hlen & Hwin) & _) & _) & _) & _).
    apply Nat.eqb_eq in Hlen. apply negb_true_iff in Hwin.
    unfold Game.verdict in Hv.
    rewrite (check_win_wins bf (Game.player s)), Hwin, bind_Ok in Hv by done.
    destruct (check_win bf (cell (Game.opp s))) as [[]| |]; done.
Qed.

(** X12.  In every game the program can play, a turn that accepts the
    answer [n] writes the player's mark into cell [n - 1], which was
    ['e']; every cell that held a mark keeps it; and the turn leaves two
    ['e'] cells fewer, or none: the reply never overwrites a mark. *)
Theorem X12_marks_persist (sides : list string) (s : Game.session)
    (b0 b b' : board) (n : Z) :
  Game.choose_side sides = inl (s, b0) →
  reachable s b0 b → Game.goes_on s b = Ok true →
  Game.turn s b n = Ok (Some b') →
  b !! Z.to_nat (n - 1) = Some "e"%char ∧
  b' !! Z.to_nat (n - 1) = Some (Game.player s) ∧
  (∀ i c, b !! i = Some c → c ≠ "e"%char → b' !! i = Some c) ∧
  (S (S (empties b')) = empties b ∨ empties b' = 0%nat).
Proof.
  intros Hs Hreach Hon Hturn.
  destruct (start_explored sides s b0 Hs) as (k & Hk & Hb0 & _).
  pose proof (explore_turn_ok s k b0 b b' n Hk Hreach Hon Hturn) as Hok.
  assert (Hb : wf b).
  { inversion Hreach as [|b1 n1 b2 Hr1 Hon1 Ht1]; subst; [done|].
    pose proof (explore_turn_ok s k b0 b1 b n1 Hk Hr1 Hon1 Ht1) as Hok1.
    unfold turn_ok in Hok1. rewrite !andb_true_iff in Hok1.
    destruct Hok1 as (((((Hlen & _) & _) & _) & _) & _).
    by apply Nat.eqb_eq in Hlen. }
  unfold turn_ok in Hok. rewrite !andb_true_iff in Hok.
  destruct Hok as (((((Hlen & _) & He) & Hp) & Hall) & Hcount).
  apply is_at_true in He, Hp. split; [done|]. split; [done|]. split.
  - intros i c Hi Hc. rewrite forallb_forall in Hall.
    assert (Hlt : (i < 9)%nat) by (rewrite <- Hb; by eapply lookup_lt_Some).
    specialize (Hall (Z.of_nat i)).
    rewrite !orb_true_iff, andb_true_iff in Hall.
    destruct Hall as [[Heq|Hsame]|[Hemp _]].
    + apply list_elem_of_In, elem_of_seqZ. lia.
    + apply Z.eqb_eq in Heq. rewrite <- Heq, Nat2Z.id in He. congruence.
    + unfold same_cell in Hsame. rewrite Nat2Z.id, Hi in Hsame.
      destruct (b' !! i) as [c'|]; [|done].
      by apply Ascii.eqb_eq in Hsame as ->.
    + apply is_at_true in Hemp. rewrite Nat2Z.id in Hemp. congruence.
  - apply orb_true_iff in Hcount as [H|H]; apply Nat.eqb_eq in H; auto.
Qed.

Lemma X12_marks_persist_witness :
  Game.choose_side ["x"] = inl (plays_x, empty_board) ∧
  ∃ b', Game.turn plays_x empty_board 5 = Ok (Some b') ∧
        b' !! Z.to_nat (5 - 1) = Some "x"%char.
Proof.
  split; [reflexivity|].
  assert (Ht : ∃ b', Game.turn plays_x empty_board 5 = Ok (Some b')).
  { vm_compute. eexists. reflexivity. }
  destruct Ht as [b' Ht]. exists b'. split; [exact Ht|].
  destruct (X12_marks_persist ["x"] plays_x empty_board empty_board b' 5
              eq_refl (reach_start _ _) eq_refl Ht) as (_ & Hp & _).
  exact Hp.
Defined.

(** ** The X/O prompt *)

Lemma lower_char_not_upper (c : ascii) :
  Client.lower_char c ≠ "X"%char ∧ Client.lower_char c ≠ "O"%char.
Proof.
  destruct c as [[] [] [] [] [] [] [] []]; split; vm_compute; discriminate.
Qed.

Lemma str_lower_cons (c : ascii) (s : string) :
  Client.str_lower (String c s)
  = String (Client.lower_char c) (Client.str_lower s).
Proof. reflexivity. Qed.

Lemma prefix_inv (l : string) (c : ascii) (s : string) :
  String.prefix l (String c s) = true →
  l = EmptyString ∨ ∃ l', l = String c l' ∧ String.prefix l' s = true.
Proof.
  destruct l as [|a l]; [by left|]. cbn.
  destruct (Ascii.ascii_dec a c) as [->|?]; [|done]. right. by eexists.
Qed.

(** The lower-case strings that occur in ["xXoO"]. *)
Lemma lower_in_xXoO (answer : string) :
  Client.str_contains (Client.str_lower answer) "xXoO" = true →
  Client.str_lower answer = EmptyString ∨
  Client.str_lower answer = "x" ∨ Client.str_lower answer = "o".
Proof.
  assert (Hup : ∀ s c t, Client.str_lower s = String c t →
                  c ≠ "X"%char ∧ c ≠ "O"%char).
  { intros [|a s] c t; [done|]. rewrite str_lower_cons. intros [= <- _].
    apply lower_char_not_upper. }
  assert (Hup2 : ∀ s c d t, Client.str_lower s = String c (String d t) →
                  d ≠ "X"%char ∧ d ≠ "O"%char).
  { intros [|a s] c d t; [done|]. rewrite str_lower_cons. intros [= _ H].
    by apply Hup in H. }
  remember (Client.str_lower answer) as l eqn:Hl. symmetry in Hl.
  cbn [Client.str_contains].
  repeat match goal with
    | |- context [String.prefix l ?s] =>
        destruct (String.prefix l s) eqn:?
    end; try done; intros _;
    repeat match goal with
      | H : String.prefix _ (String _ _) = true |- _ =>
          apply prefix_inv in H as [->|(? & -> & H)]
      | H : String.prefix _ EmptyString = _ |- _ =>
          destruct l; [|discriminate H]; clear H
      | H : String.prefix ?l' EmptyString = true |- _ =>
          destruct l'; [|discriminate H]; clear H
      end; auto;
    try (apply Hup in Hl; by destruct Hl);
    try (apply Hup2 in Hl; by destruct Hl).
Qed.

(** X13.  The X/O prompt takes ["x"] and ["X"] for the side ['x'] and
    ["o"] and ["O"] for the side ['o'], with the program's first move in
    the centre; the empty answer ends the program; every other answer is
    asked again. *)
Theorem X13_side_prompt (answer : string) (rest : list string) :
  (Client.str_lower answer = "x" →
   Game.choose_side (answer :: rest) = inl (plays_x, empty_board)) ∧
  (Client.str_lower answer = "o" →
   Game.choose_side (answer :: rest) = inl (plays_o, centre_board)) ∧
  (answer = EmptyString →
   Game.choose_side (answer :: rest) = inr Game.NoSide) ∧
  (Client.str_lower answer ≠ "x" → Client.str_lower answer ≠ "o" →
   answer ≠ EmptyString →
   Game.choose_side (answer :: rest) = Game.choose_side rest).
Proof.
  cbn [Game.choose_side]. split; [|split; [|split]].
  - by intros ->.
  - by intros ->.
  - by intros ->.
  - intros Hx Ho He.
    destruct (Client.str_contains (Client.str_lower answer) "xXoO") eqn:Hc;
      [|done].
    destruct (lower_in_xXoO answer Hc) as [H|[H|H]]; [|done..].
    destruct answer; [done|]. by rewrite str_lower_cons in H.
Qed.

Lemma X13_side_prompt_witness :
  Game.choose_side ["X"; "q"] = inl (plays_x, empty_board) ∧
  Game.choose_side ["xX"; "o"] = Game.choose_side ["o"].
Proof.
  destruct (X13_side_prompt "X" ["q"]) as (H1 & _).
  destruct (X13_side_prompt "xX" ["o"]) as (_ & _ & _ & H4).
  split; [apply H1; reflexivity|].
  apply H4; vm_compute; discriminate.
Defined.

(** ** The loop condition and the move generator *)

Lemma has_empty_elem (b : board) : Game.has_empty b = true ↔ "e"%char ∈ b.
Proof.
  unfold Game.has_empty. induction b as [|c b IH].
  - cbn. split; [done|]. by intros ?%elem_of_nil.
  - cbn [string_of_list_ascii Client.str_contains String.prefix].
    rewrite elem_of_cons.
    destruct (Ascii.ascii_dec "e" c) as [<-|Hne]. { replace (String.prefix EmptyString (string_of_list_ascii b)) with true
        by (by destruct (string_of_list_ascii b)).
      split; by auto. }
    rewrite IH. split; [by auto|]. by intros [?|?].
Qed.

(** X14.  For either side, on a board of nine cells, the game loop goes
    on exactly when [generate_moves] has a move to offer. *)
Theorem X14_loop_goes_on_iff_moves (s : Game.session) (b : board) :
  wf b → s = plays_x ∨ s = plays_o →
  Game.goes_on s b = Ok true ↔
  ∃ ms, generate_moves b = Ok ms ∧ ms ≠ [].
Proof.
  intros Hb Hs. unfold Game.goes_on.
  rewrite generate_moves_eq, !check_win_wins, !bind_Ok, !and_Ok by done.
  assert (He : Game.has_empty b = true ↔ empty_cells b ≠ []).
  { rewrite has_empty_elem. split.
    - intros Hin Hnil. apply (empties_zero b); [|done].
      by rewrite <- empty_cells_length, Hnil.
    - intros Hn. apply list_elem_of_In, (count_occ_In Ascii.ascii_dec).
      fold (empties b). rewrite <- empty_cells_length by done.
      destruct (empty_cells b); [done|cbn; lia]. }
  destruct Hs as [-> | ->]; cbn [Game.player Game.opp plays_x plays_o];
    destruct (wins b "x"), (wins b "o"); cbn [negb andb orb];
    try (split; [done|intros (ms & [= <-] & ?); done]);
    (split;
     [intros [= H]; apply He in H; by eauto
     |intros (ms & [= <-] & H); apply He in H; by rewrite H]).
Qed.

Lemma X14_loop_goes_on_iff_moves_witness :
  wf two_left_board ∧
  (Game.goes_on plays_x two_left_board = Ok true ↔
   ∃ ms, generate_moves two_left_board = Ok ms ∧ ms ≠ []).
Proof.
  split; [reflexivity|].
  apply (X14_loop_goes_on_iff_moves plays_x two_left_board); [reflexivity|].
  left. reflexivity.
Defined.

(** ** The final message *)

Lemma game_loop_wf (s : Game.session) (answers : list (option Z)) :
  ∀ b e bf, wf b → Game.game_loop s answers b = Ok (e, bf) → wf bf.
Proof.
  induction answers as [|a rest IH]; intros b e bf Hb;
    rewrite game_loop_unfold; intros H;
    apply bind_Ok_inv in H as (on & Hon & H); destruct on.
  - by injection H as <- <-.
  - by apply bind_Ok_inv in H as (v & Hv & [= <- <-]).
  - destruct a as [n|]; [|by injection H as <- <-].
    apply bind_Ok_inv in H as (r & Hr & H). destruct r as [b'|].
    + apply (IH b' e bf); [|done].
      pose proof (turn_accepts_range s b b' n Hr) as Hn.
      apply elem_of_seqZ in Hn.
      destruct (turn_total s b n Hb) as (r & Hr' & Hwf); [lia|].
      apply Hwf. congruence.
    + by apply (IH b e bf).
  - by apply bind_Ok_inv in H as (v & Hv & [= <- <-]).
Qed.

(** X15.  When the loop, started on a board of nine cells, ends with one
    of the three final messages, the message fits the board it ends on, a
    board of nine cells: a tie is announced only on a board without an
    ['e'] cell on which no line is filled with the player's mark and none
    with the program's, a defeat only when some line is filled with the
    program's mark and none with the player's, and a win only when some
    line is filled with the player's mark. *)
Theorem X15_final_message_fits (s : Game.session)
    (answers : list (option Z)) (b bf : board) (e : Game.ending) :
  wf b →
  Game.game_loop s answers b = Ok (e, bf) →
  wf bf ∧
  (e = Game.YouTied →
   ¬ full_line bf (Game.player s) ∧ ¬ full_line bf (Game.opp s) ∧
   "e"%char ∉ bf) ∧
  (e = Game.YouFailed →
   ¬ full_line bf (Game.player s) ∧ full_line bf (Game.opp s)) ∧
  (e = Game.YouWon → full_line bf (Game.player s)).
Proof.
  intros Hb Hloop.
  pose proof (game_loop_wf s answers b e bf Hb Hloop) as Hbf.
  split; [done|].
  destruct (game_loop_reachable s b answers b e bf (reach_start s b) Hloop)
    as [_ Hend].
  assert (Hcases : ∀ v, e = v →
            v = Game.YouWon ∨ v = Game.YouFailed ∨ v = Game.YouTied →
            Game.goes_on s bf = Ok false ∧ Game.verdict s bf = Ok v).
  { intros v <- Hv. by apply Hend. }
  unfold Game.goes_on, Game.verdict in Hcases.
  rewrite (check_win_wins bf (Game.player s) Hbf),
    (check_win_wins bf (Game.opp s) Hbf), !bind_Ok, !and_Ok in Hcases.
  rewrite <- !wins_full_line.
  split; [|split]; intros He;
    (destruct (Hcases _ He) as [Hon Hv]; [by auto|]);
    destruct (wins bf (Game.player s)); try done;
    rewrite ?bind_Ok in Hv;
    destruct (wins bf (Game.opp s)); try done.
  cbn in Hon. injection Hon as Hon.
  split; [done|]. split; [done|].
  intros Hin. apply has_empty_elem in Hin. congruence.
Qed.

Lemma X15_final_message_fits_witness :
  wf x_won_board ∧ wf drawn_board ∧
  Game.game_loop plays_x [] x_won_board = Ok (Game.YouWon, x_won_board) ∧
  Game.game_loop plays_o [] x_won_board = Ok (Game.YouFailed, x_won_board) ∧
  Game.game_loop plays_x [] drawn_board = Ok (Game.YouTied, drawn_board) ∧
  full_line x_won_board "x" ∧
  (¬ full_line x_won_board "o" ∧ full_line x_won_board "x") ∧
  (¬ full_line drawn_board "x" ∧ ¬ full_line drawn_board "o" ∧
   "e"%char ∉ drawn_board).
Proof.
  split; [reflexivity|]. split; [reflexivity|].
  split; [reflexivity|]. split; [reflexivity|]. split; [reflexivity|].
  destruct (X15_final_message_fits plays_x [] x_won_board x_won_board
              Game.YouWon eq_refl eq_refl) as (_ & _ & _ & Hwon).
  destruct (X15_final_message_fits plays_o [] x_won_board x_won_board
              Game.YouFailed eq_refl eq_refl) as (_ & _ & Hlost & _).
  destruct (X15_final_message_fits plays_x [] drawn_board drawn_board
              Game.YouTied eq_refl eq_refl) as (_ & Htie & _).
  split; [apply Hwon; reflexivity|].
  split; [apply Hlost; reflexivity|apply Htie; reflexivity].
Defined.

(** * The protocol client *)

(** ** Taking a line off the buffer *)

(** X16.  Taking a line off the buffer skips empty lines only: the line
    handed on is the first non-empty one, it is never empty, and the lines
    after it stay in the buffer in their order; the pop fails exactly when
    every buffered line is empty. *)
Theorem X16_pop_line_first_non_empty (stack : list string)
    (message_line : option string) :
  (∀ line rest,
     Client.pop_line stack message_line = inl (line, rest) ↔
     ∃ skipped, stack = skipped ++ line :: rest ∧
                Forall (λ l, l = EmptyString) skipped ∧ line ≠ EmptyString) ∧
  (∀ last,
     Client.pop_line stack message_line = inr last →
     Forall (λ l, l = EmptyString) stack).
Proof.
  revert message_line. induction stack as [|l stack IH]; intros ml.
  { split.
    - intros line rest. split; [done|]. intros (sk & H & _).
      by destruct sk.
    - by intros. }
  cbn [Client.pop_line]. destruct (String.eqb_spec l EmptyString) as [->|Hl].
  - destruct (IH (Some EmptyString)) as [IH1 IH2]. split.
    + intros line rest. rewrite IH1. split.
      * intros (sk & -> & Hsk & Hne). exists (EmptyString :: sk).
        split; [done|]. split; [by constructor|done].
      * intros (sk & Hst & Hsk & Hne). destruct sk as [|s sk].
        { injection Hst as Hst _. by destruct Hne. }
        injection Hst as _ ->. exists sk.
        split; [done|]. split; [by inversion Hsk|done].
    + intros last H. constructor; [done|]. by eapply IH2.
  - split; [|done]. intros line rest. split.
    + intros [= -> ->]. exists []. by split.
    + intros (sk & Hst & Hsk & Hne). destruct sk as [|s sk].
      * by injection Hst as -> ->.
      * injection Hst as -> _. inversion Hsk; subst. done.
Qed.

(** ** The board snapshot *)

Lemma getitem_cons_succ {A} (a : A) (l : list A) (i : Z) :
  0 ≤ i < Z.of_nat (length l) → getitem (a :: l) (Z.succ i) = getitem l i.
Proof.
  intros Hi. unfold getitem.
  rewrite !py_index_ok by (cbn [length]; lia). cbn.
  by rewrite Z2Nat.inj_succ by lia.
Qed.

Lemma setitem_cons_succ {A} (a : A) (l : list A) (i : Z) (v : A) :
  0 ≤ i < Z.of_nat (length l) →
  setitem (a :: l) (Z.succ i) v = Ok (a :: <[Z.to_nat i:=v]> l).
Proof.
  intros Hi. rewrite setitem_ok by (cbn [length]; lia).
  by rewrite Z2Nat.inj_succ by lia.
Qed.

Lemma blank_loop_shift (a : ascii) (idxs : list Z) :
  ∀ l : list ascii,
    Forall (λ i, 0 ≤ i < Z.of_nat (length l)) idxs →
    ∀ l', for_each idxs blank_body l = Ok l' →
    for_each (Z.add 1 <$> idxs) blank_body (a :: l) = Ok (a :: l').
Proof.
  induction idxs as [|i idxs IH]; intros l Hall l' H.
  { by injection H as <-. }
  inversion Hall as [|? ? Hi Hrest]; subst.
  cbn [for_each fmap list_fmap] in H |- *.
  apply bind_Ok_inv in H as (l1 & Hbody & H).
  replace (1 + i) with (Z.succ i) by lia.
  assert (blank_body (a :: l) (Z.succ i) = Ok (a :: l1) ∧ length l1 = length l)
    as [-> Hlen].
  { unfold blank_body in *. rewrite getitem_cons_succ by done.
    destruct (getitem l i) as [c| |]; [|done..]. rewrite bind_Ok in *.
    destruct (Client.str_contains _ _).
    - rewrite setitem_ok in Hbody by done. injection Hbody as <-.
      rewrite setitem_cons_succ by done. by rewrite length_insert.
    - by injection Hbody as <-. }
  rewrite bind_Ok. apply IH; [|done]. by rewrite Hlen.
Qed.

Lemma blank_loop (l : list ascii) :
  for_each (seqZ 0 (Z.of_nat (length l))) blank_body l = Ok (blank_digit <$> l).
Proof.
  induction l as [|a l IH]; [done|].
  rewrite seqZ_cons by (cbn [length]; lia).
  replace (Z.pred (Z.of_nat (length (a :: l)))) with (Z.of_nat (length l))
    by (cbn [length]; lia).
  change (Z.succ 0) with (1 + 0). rewrite <- (fmap_add_seqZ 1 0).
  cbn [for_each].
  assert (Hhead : blank_body (a :: l) 0 = Ok (blank_digit a :: l)).
  { unfold blank_body, blank_digit.
    change (getitem (a :: l) 0) with (Ok a : res ascii). rewrite bind_Ok.
    by destruct (Client.str_contains (String a EmptyString) "123456789"). }
  rewrite Hhead, bind_Ok. cbn [fmap list_fmap].
  apply blank_loop_shift; [|done].
  apply Forall_forall. intros i Hi%elem_of_seqZ. lia.
Qed.

(** X17.  A line of nine characters is taken over as the board, each
    character in lower case, except that the digits 1 to 9 become ['e'];
    the digit 0 and every other character stay as cells. *)
Theorem X17_snapshot_cells (player opp : ascii) (isX : bool)
    (st : Client.state) (line : string) :
  Client.py_len line = 9 → Client.str_contains "Tie" line = false →
  Client.state_check player opp isX st line =
    Ok (Client.Handled Client.Board9CHR
          (Client.set_message_line
             (Client.set_board st
                (snapshot_cell <$> list_ascii_of_string line)) None)) ∧
  wf (snapshot_cell <$> list_ascii_of_string line).
Proof.
  intros Hlen Htie. unfold Client.state_check, Client.classify.
  rewrite Hlen, Htie. cbn [Z.eqb Pos.eqb negb andb].
  assert (Hl : length (list_ascii_of_string line) = 9%nat).
  { unfold Client.py_len in Hlen.
    assert (∀ s, length (list_ascii_of_string s) = String.length s) as ->
      by (induction s; cbn; congruence). lia. }
  split; [|unfold wf; by rewrite length_fmap].
  unfold Client.snapshot, Client.str_lower.
  rewrite list_ascii_of_string_of_list_ascii.
  fold blank_body. unfold py_range.
  replace (9 - 0) with
    (Z.of_nat (length (map Client.lower_char (list_ascii_of_string line))))
    by (rewrite length_map, Hl; done).
  rewrite blank_loop, bind_Ok.
  assert (∀ l, blank_digit <$> map Client.lower_char l = snapshot_cell <$> l)
    as ->; [|done].
  induction l as [|c l IH]; [done|]. cbn [map fmap list_fmap].
  by rewrite IH.
Qed.

Lemma X17_snapshot_cells_witness :
  Client.py_len "X2o4E6078" = 9 ∧
  wf (snapshot_cell <$> list_ascii_of_string "X2o4E6078").
Proof.
  split; [reflexivity|].
  apply (X17_snapshot_cells "x" "o" true (Client.initial []) "X2o4E6078");
    reflexivity.
Defined.

(** ** A server move *)

Lemma getitem_last {A} (l : list A) (a : A) : getitem (l ++ [a]) (-1) = Ok a.
Proof.
  unfold getitem, py_index. rewrite length_app. cbn [length].
  destruct (Z.ltb_spec (-1) 0) as [_|?]; [|lia].
  destruct (Z.ltb_spec (Z.of_nat (length l + 1) + -1) 0); [lia|].
  destruct (Z.leb_spec (Z.of_nat (length l + 1))
              (Z.of_nat (length l + 1) + -1)); [lia|].
  cbn. replace (Z.to_nat (Z.of_nat (length l + 1) + -1)) with (length l) by lia.
  by rewrite list_lookup_middle.
Qed.

Lemma list_ascii_of_string_app (s t : string) :
  list_ascii_of_string (String.append s t)
  = list_ascii_of_string s ++ list_ascii_of_string t.
Proof. induction s as [|c s IH]; [done|]. cbn. by rewrite IH. Qed.

Lemma py_int_digit (k : Z) :
  0 ≤ k ≤ 9 → Client.py_int (digit_char k) = Ok k.
Proof.
  intros Hk. unfold Client.py_int, digit_char. cbn zeta.
  rewrite nat_ascii_embedding by lia.
  destruct (Nat.leb_spec 48 (Z.to_nat (48 + k))); [|lia].
  destruct (Nat.leb_spec (Z.to_nat (48 + k)) 57); [|lia].
  cbn [andb]. f_equal. lia.
Qed.

(** X18.  A server-move line of ASCII text is read by its last character
    alone.  The digit [k] from 1 to 9 puts the opponent's mark into cell
    [k - 1], whatever the cell holds; the digit 0 puts it into cell 8; any
    other character of ASCII ends the client with an uncaught
    [ValueError]. *)
Theorem X18_server_move_last_character (player opp : ascii) (isX : bool)
    (st : Client.state) (text : string) (c : ascii) :
  wf (Client.board st) →
  Client.classify (String.append text (String c EmptyString)) = Client.SvrMove →
  (∀ k, 1 ≤ k ≤ 9 → c = digit_char k →
     Client.state_check player opp isX st
       (String.append text (String c EmptyString)) =
     Ok (Client.Handled Client.SvrMove
           (Client.set_message_line
              (Client.set_board st
                 (<[Z.to_nat (k - 1):=opp]> (Client.board st)))
              None))) ∧
  (c = "0"%char →
     Client.state_check player opp isX st
       (String.append text (String c EmptyString)) =
     Ok (Client.Handled Client.SvrMove
           (Client.set_message_line
              (Client.set_board st (<[8%nat:=opp]> (Client.board st)))
              None))) ∧
  ((nat_of_ascii c < 128)%nat →
   (nat_of_ascii c < 48 ∨ 57 < nat_of_ascii c)%nat →
   Client.state_check player opp isX st
     (String.append text (String c EmptyString)) = Raise ValueError).
Proof.
  intros Hb Hcl. unfold Client.state_check. rewrite Hcl.
  rewrite list_ascii_of_string_app. cbn [list_ascii_of_string].
  rewrite getitem_last, bind_Ok. split; [|split].
  - intros k Hk ->. rewrite py_int_digit by lia.
    rewrite bind_Ok, setitem_ok by (rewrite Hb; lia). done.
  - intros ->. change (Client.py_int "0") with (Ok 0 : res Z).
    rewrite bind_Ok.
    change (setitem (Client.board st) (0 - 1) opp)
      with (setitem (Client.board st) (-1) opp).
    unfold setitem, py_index. rewrite Hb. done.
  - intros _ Hc. unfold Client.py_int. cbn zeta.
    destruct (Nat.leb_spec 48 (nat_of_ascii c)); [|done].
    destruct (Nat.leb_spec (nat_of_ascii c) 57); [lia|done].
Qed.

Lemma X18_server_move_last_character_witness :
  wf (Client.board (Client.initial [])) ∧
  Client.state_check "x" "o" true (Client.initial []) "Server moved to 7" =
    Ok (Client.Handled Client.SvrMove
          (Client.set_message_line
             (Client.set_board (Client.initial [])
                (<[6%nat:="o"%char]> (Client.board (Client.initial []))))
             None)) ∧
  Client.state_check "x" "o" true (Client.initial []) "Server moved to 0" =
    Ok (Client.Handled Client.SvrMove
          (Client.set_message_line
             (Client.set_board (Client.initial [])
                (<[8%nat:="o"%char]> (Client.board (Client.initial []))))
             None)) ∧
  Client.state_check "x" "o" true (Client.initial []) "Server moved to A"
    = Raise ValueError.
Proof.
  split; [reflexivity|].
  destruct (X18_server_move_last_character "x" "o" true (Client.initial [])
              "Server moved to " "7" eq_refl eq_refl) as (H7 & _).
  destruct (X18_server_move_last_character "x" "o" true (Client.initial [])
              "Server moved to " "0" eq_refl eq_refl) as (_ & H0 & _).
  destruct (X18_server_move_last_character "x" "o" true (Client.initial [])
              "Server moved to " "A" eq_refl eq_refl) as (_ & _ & HA).
  split; [apply (H7 7); [lia|reflexivity]|].
  split; [apply H0; reflexivity|].
  apply HA; [vm_compute; lia|right; vm_compute; lia].
Defined.

(** ** A client move *)







(** ** The first read *)

(** X20.  [main] enters the loop with [message] set to a blank.  If the
    first read times out, the blank is taken as a line, matches no rule,
    and the client ends with its client-side error before anything was
    received. *)
Theorem X20_first_timeout_is_fatal (player opp : ascii) (isX : bool)
    (rest : list (option string)) (n : nat) :
  let stopped (socket : list (option string)) :=
    {| Client.message := None; Client.message_stack := [];
       Client.message_line := Some " "; Client.cont_counter := 0;
       Client.board := empty_board; Client.end_ := false;
       Client.sent := []; Client.socket := socket |} in
  Client.main_loop player opp isX (S n) (Client.initial (None :: rest))
    = ([Some Client.CLIENT_ERROR], Client.Exit (stopped rest)) ∧
  Client.main_loop player opp isX (S n) (Client.initial [])
    = ([Some Client.CLIENT_ERROR], Client.Exit (stopped [])).
Proof. split; reflexivity. Qed.

(** ** A line that arrives in two reads *)

Lemma str_split_no_newline (s : string) :
  Client.newline ∉ list_ascii_of_string s →
  Client.str_split Client.newline s = [s].
Proof.
  induction s as [|c s IH]; [done|]. cbn [list_ascii_of_string].
  rewrite not_elem_of_cons. intros [Hc Hs]. cbn [Client.str_split].
  destruct (Ascii.eqb_spec c Client.newline) as [->|_]; [done|].
  by rewrite IH.
Qed.

(** X21.  What one read delivers is split at the newlines and nothing is
    kept back for the next read: with an empty buffer, a read that
    delivers a non-empty text without a newline hands that text to the
    state check as a complete line, so a line that arrives in two reads is
    taken as two lines. *)
Theorem X21_fragment_is_a_line (player opp : ascii) (isX : bool)
    (st : Client.state) (data : string) (rest : list (option string)) :
  Client.message_stack st = [] → Client.socket st = Some data :: rest →
  data ≠ EmptyString → Client.newline ∉ list_ascii_of_string data →
  Client.iteration player opp isX st =
    Client.state_check player opp isX
      {| Client.message := None; Client.message_stack := [];
         Client.message_line := Some data;
         Client.cont_counter := Client.cont_counter st;
         Client.board := Client.board st; Client.end_ := Client.end_ st;
         Client.sent := Client.sent st; Client.socket := rest |}
      data.
Proof.
  destruct st as [msg stack ml cc b e snt sock]. cbn.
  intros -> -> Hne Hnl. unfold Client.iteration, Client.receive, Client.extend.
  cbn. rewrite str_split_no_newline by done. cbn.
  destruct (String.eqb_spec data EmptyString) as [?|_]; [done|]. done.
Qed.

Lemma X21_fragment_is_a_line_witness :
  Client.iteration "x" "o" true
    (Client.set_message_line (Client.initial [Some "Server mov"]) None)
  = Raise ValueError.
Proof.
  rewrite (X21_fragment_is_a_line "x" "o" true _ "Server mov" []);
    [reflexivity|reflexivity|reflexivity|discriminate|].
  vm_compute. intros H.
  repeat (apply elem_of_cons in H as [H|H]; [discriminate H|]).
  by apply elem_of_nil in H.
Defined.

(** * The search of [SOA_TTT.py] *)

Lemma soa_minimax_rec_move (fuel : nat) :
  ∀ (b : board) (d : Z) (α β : ext) (x : bool) (ms : list Z),
    wf b → (empties b < fuel)%nat → generate_moves b = Ok ms →
    ∃ u m, SOA.minimax_rec fuel b d α β x = Ok (u, m, b) ∧
           (m = -1 ∨ m ∈ ms).
Proof.
  intros b d α β x ms Hb Hfuel Hms. destruct fuel as [|fuel]; [lia|].
  destruct (heuristic_total b Hb) as [h Hh].
  assert (Hunfold : SOA.minimax_rec (S fuel) b d α β x =
    if d =? 0 then Ok (Fin h, -1, b)
    else for_moves (SOA.minimax_rec fuel) d x (mark x) ms b (worst x) (-1) α β).
  { cbn [SOA.minimax_rec].
    destruct x; cbn zeta beta iota; rewrite soa_cutoff_eq, bind_Ok by done;
      (destruct (d =? 0); [by rewrite Hh|by rewrite Hms]). }
  rewrite Hunfold. destruct (d =? 0); [by eauto|].
  destruct (for_moves_inv (SOA.minimax_rec fuel) d x (mark x) (λ _, True) b ms)
    with (u := worst x) (bm := -1) (α := α) (β := β)
    as (u' & m' & Hloop & Hres & _).
  - intros m Hm. destruct (generate_moves_elem b ms m) as [? ?]; try done.
    rewrite Hb. split; [lia|done].
  - intros m α' β' Hm.
    destruct (generate_moves_elem b ms m) as [? He]; try done.
    pose proof (empties_insert b (Z.to_nat m) (mark x) He (mark_not_e x)).
    destruct (soa_minimax_rec_frame fuel (<[Z.to_nat m:=mark x]> b) (d - 1)
                α' β' (negb x)) as (u1 & m1 & Hrec); [by apply wf_insert|lia|].
    eauto.
  - exists u', m'. split; [done|]. destruct Hres as [[_ ->]|[_ ?]]; auto.
Qed.

(** X22.  On a board of nine cells the search of [SOA_TTT.py], and
    [choose_move] with it, returns either [-1] or the index of an ['e']
    cell: it never names a cell that holds a mark. *)
Theorem X22_soa_move_or_sentinel (b : board) (d : Z) (α β : ext) (x : bool) :
  wf b →
  (∃ u m, SOA.minimax b d α β x = Ok (u, m, b) ∧
          (m = -1 ∨ (0 ≤ m ≤ 8 ∧ b !! Z.to_nat m = Some "e"%char))) ∧
  (∃ m, SOA.choose_move b d x = Ok (m, b) ∧
        (m = -1 ∨ (0 ≤ m ≤ 8 ∧ b !! Z.to_nat m = Some "e"%char))).
Proof.
  intros Hb.
  assert (H : ∀ α β, ∃ u m, SOA.minimax b d α β x = Ok (u, m, b) ∧
            (m = -1 ∨ (0 ≤ m ≤ 8 ∧ b !! Z.to_nat m = Some "e"%char))).
  { intros α' β'. pose proof (generate_moves_eq b Hb) as Hg.
    destruct (soa_minimax_rec_move (S (empties b)) b d α' β' x _ Hb
                (Nat.lt_succ_diag_r _) Hg) as (u & m & Hr & Hm).
    exists u, m. split; [done|]. destruct Hm as [?|Hin]; [by left|right].
    destruct (generate_moves_elem b _ m Hb Hg Hin). split; [lia|done]. }
  split; [apply H|].
  destruct (H NInf PInf) as (u & m & Hr & Hm). exists m.
  unfold SOA.choose_move. by rewrite Hr.
Qed.

Lemma X22_soa_move_or_sentinel_witness :
  wf two_left_board ∧
  ∃ m, SOA.choose_move two_left_board 100 true = Ok (m, two_left_board) ∧
       (m = -1 ∨ (0 ≤ m ≤ 8 ∧ two_left_board !! Z.to_nat m = Some "e"%char)).
Proof.
  split; [reflexivity|].
  apply (X22_soa_move_or_sentinel two_left_board 100 NInf PInf true).
  reflexivity.
Defined.

(** * The game loop does not fail on answers from -8 to 9 *)

Lemma goes_on_total (s : Game.session) (b : board) :
  wf b → ∃ on, Game.goes_on s b = Ok on.
Proof.
  intros Hb. unfold Game.goes_on.
  rewrite !check_win_wins, !bind_Ok, !and_Ok by done. by eexists.
Qed.

Lemma verdict_total (s : Game.session) (b : board) :
  wf b → ∃ v, Game.verdict s b = Ok v.
Proof.
  intros Hb. unfold Game.verdict.
  rewrite !check_win_wins, !bind_Ok by done.
  destruct (wins b (Game.player s)); [by eexists|].
  rewrite ?bind_Ok. destruct (wins b (Game.opp s)); by eexists.
Qed.

(** X23.  On a board of nine cells the game loop raises nothing as long
    as every integer answered lies between -8 and 9: it ends with a
    message, or waits for the next answer, on a board of nine cells. *)
Theorem X23_game_loop_does_not_raise (s : Game.session)
    (answers : list (option Z)) (b : board) :
  wf b →
  (∀ n, Some n ∈ answers → -8 ≤ n ≤ 9) →
  ∃ e bf, Game.game_loop s answers b = Ok (e, bf) ∧ wf bf.
Proof.
  revert b. induction answers as [|a rest IH]; intros b Hb Hall;
    rewrite game_loop_unfold;
    destruct (goes_on_total s b Hb) as [on ->]; rewrite bind_Ok;
    destruct (verdict_total s b Hb) as [v Hv].
  - destruct on; [by eauto|]. rewrite Hv. by eauto.
  - destruct on; [|rewrite Hv; by eauto].
    destruct a as [n|]; [|by eauto].
    destruct (turn_total s b n Hb) as (r & -> & Hr); [apply Hall; by left|].
    rewrite bind_Ok.
    assert (Hrest : ∀ n', Some n' ∈ rest → -8 ≤ n' ≤ 9).
    { intros n' Hn'. apply Hall. by right. }
    destruct r as [b'|]; apply IH; auto.
Qed.

Lemma X23_game_loop_does_not_raise_witness :
  wf empty_board ∧
  ∃ e bf, Game.game_loop plays_x [Some 5; Some 0; None] empty_board
            = Ok (e, bf) ∧ wf bf.
Proof.
  split; [reflexivity|].
  apply (X23_game_loop_does_not_raise plays_x [Some 5; Some 0; None]
           empty_board); [reflexivity|].
  intros n Hn.
  repeat (apply elem_of_cons in Hn as [Hn|Hn];
          [first [injection Hn as ->; lia|discriminate Hn]|]).
  by apply elem_of_nil in Hn.
Defined.
